(** * Verification of the rslint lexer contract and of the no-irregular-whitespace scan

    Source text is a Rust [String]: a sequence of Unicode scalar values,
    stored as UTF-8.  We represent it as the list of its code points
    ([list Z]); byte offsets and token lengths are computed through the
    UTF-8 encoding [utf8_encode]. *)

From Stdlib Require Import ZArith List String Ascii Bool Lia Sorted.
Import ListNotations.
Open Scope Z_scope.

Abbreviation length := List.length.

(** ** UTF-8 *)

(** Number of bytes of one code point in UTF-8 ([char::len_utf8]). *)
Definition len_utf8 (c : Z) : nat :=
  if c <? 128 then 1%nat
  else if c <? 2048 then 2%nat
  else if c <? 65536 then 3%nat
  else 4%nat.

(** UTF-8 encoding of one code point, as bytes (each a [Z] in 0..255). *)
Definition utf8_encode (c : Z) : list Z :=
  if c <? 128 then [c]
  else if c <? 2048 then
    [Z.lor 192 (Z.shiftr c 6); Z.lor 128 (Z.land c 63)]
  else if c <? 65536 then
    [Z.lor 224 (Z.shiftr c 12); Z.lor 128 (Z.land (Z.shiftr c 6) 63);
     Z.lor 128 (Z.land c 63)]
  else
    [Z.lor 240 (Z.shiftr c 18); Z.lor 128 (Z.land (Z.shiftr c 12) 63);
     Z.lor 128 (Z.land (Z.shiftr c 6) 63); Z.lor 128 (Z.land c 63)].

(** [str.as_bytes()] *)
Definition as_bytes (s : list Z) : list Z := flat_map utf8_encode s.

(** [str.len()]: the byte length. *)
Fixpoint byte_len (s : list Z) : nat :=
  match s with
  | [] => 0%nat
  | c :: r => (len_utf8 c + byte_len r)%nat
  end.

(** Code points of an ASCII Rocq string, to write test inputs. *)
Definition str (s : string) : list Z :=
  map (fun a => Z.of_nat (nat_of_ascii a)) (list_ascii_of_string s).

(** ** Character classifier (spec section 4.1) *)

Definition ch (a : ascii) : Z := Z.of_nat (nat_of_ascii a).

Definition mem (c : Z) (l : list Z) : bool := existsb (Z.eqb c) l.

(** The code points of [WHITESPACE_TABLE] (no_irregular_whitespace.rs),
    in table order. *)
Definition irregular_ws : list Z :=
  [11; 12; 160; 133; 5760; 6158; 65279; 8192; 8193; 8194; 8195; 8196;
   8197; 8198; 8199; 8200; 8201; 8202; 8203; 8232; 8233; 8239; 8287; 12288].

(** Modelled from the spec: the whitespace class of the lexer (section 4.9:
    ASCII space, tab and newline plus the Unicode and irregular whitespace
    set); carriage return is taken as a newline. *)
Definition is_ws (c : Z) : bool := mem c [9; 10; 13; 32] || mem c irregular_ws.

(** Modelled from the spec: line terminators (LF, CR, LS, PS). *)
Definition is_line_term (c : Z) : bool := mem c [10; 13; 8232; 8233].

Definition is_ascii_alpha (c : Z) : bool :=
  ((65 <=? c) && (c <=? 90)) || ((97 <=? c) && (c <=? 122)).

(** Digits in base 2, 8, 10 or 16. *)
Definition is_digit (radix : Z) (c : Z) : bool :=
  if radix =? 16 then
    ((48 <=? c) && (c <=? 57)) || ((97 <=? c) && (c <=? 102)) || ((65 <=? c) && (c <=? 70))
  else (48 <=? c) && (c <? 48 + radix).

Definition is_dec (c : Z) : bool := is_digit 10 c.
Definition is_hex (c : Z) : bool := is_digit 16 c.

Definition hex_val (c : Z) : Z :=
  if (48 <=? c) && (c <=? 57) then c - 48
  else if (97 <=? c) && (c <=? 102) then c - 87
  else c - 55.

(** Code points of the Unicode properties ID_Start and ID_Continue
    (Unicode 14.0) above the ASCII range, as inclusive intervals. *)
Definition id_start_ranges : list (Z * Z) :=
  [(170, 170); (181, 181); (186, 186); (192, 214); (216, 246); (248, 705);
   (710, 721); (736, 740); (748, 748); (750, 750); (880, 884); (886, 887);
   (890, 893); (895, 895); (902, 902); (904, 906); (908, 908); (910, 929);
   (931, 1013); (1015, 1153); (1162, 1327); (1329, 1366); (1369, 1369); (1376, 1416);
   (1488, 1514); (1519, 1522); (1568, 1610); (1646, 1647); (1649, 1747); (1749, 1749);
   (1765, 1766); (1774, 1775); (1786, 1788); (1791, 1791); (1808, 1808); (1810, 1839);
   (1869, 1957); (1969, 1969); (1994, 2026); (2036, 2037); (2042, 2042); (2048, 2069);
   (2074, 2074); (2084, 2084); (2088, 2088); (2112, 2136); (2144, 2154); (2160, 2183);
   (2185, 2190); (2208, 2249); (2308, 2361); (2365, 2365); (2384, 2384); (2392, 2401);
   (2417, 2432); (2437, 2444); (2447, 2448); (2451, 2472); (2474, 2480); (2482, 2482);
   (2486, 2489); (2493, 2493); (2510, 2510); (2524, 2525); (2527, 2529); (2544, 2545);
   (2556, 2556); (2565, 2570); (2575, 2576); (2579, 2600); (2602, 2608); (2610, 2611);
   (2613, 2614); (2616, 2617); (2649, 2652); (2654, 2654); (2674, 2676); (2693, 2701);
   (2703, 2705); (2707, 2728); (2730, 2736); (2738, 2739); (2741, 2745); (2749, 2749);
   (2768, 2768); (2784, 2785); (2809, 2809); (2821, 2828); (2831, 2832); (2835, 2856);
   (2858, 2864); (2866, 2867); (2869, 2873); (2877, 2877); (2908, 2909); (2911, 2913);
   (2929, 2929); (2947, 2947); (2949, 2954); (2958, 2960); (2962, 2965); (2969, 2970);
   (2972, 2972); (2974, 2975); (2979, 2980); (2984, 2986); (2990, 3001); (3024, 3024);
   (3077, 3084); (3086, 3088); (3090, 3112); (3114, 3129); (3133, 3133); (3160, 3162);
   (3165, 3165); (3168, 3169); (3200, 3200); (3205, 3212); (3214, 3216); (3218, 3240);
   (3242, 3251); (3253, 3257); (3261, 3261); (3293, 3294); (3296, 3297); (3313, 3314);
   (3332, 3340); (3342, 3344); (3346, 3386); (3389, 3389); (3406, 3406); (3412, 3414);
   (3423, 3425); (3450, 3455); (3461, 3478); (3482, 3505); (3507, 3515); (3517, 3517);
   (3520, 3526); (3585, 3632); (3634, 3635); (3648, 3654); (3713, 3714); (3716, 3716);
   (3718, 3722); (3724, 3747); (3749, 3749); (3751, 3760); (3762, 3763); (3773, 3773);
   (3776, 3780); (3782, 3782); (3804, 3807); (3840, 3840); (3904, 3911); (3913, 3948);
   (3976, 3980); (4096, 4138); (4159, 4159); (4176, 4181); (4186, 4189); (4193, 4193);
   (4197, 4198); (4206, 4208); (4213, 4225); (4238, 4238); (4256, 4293); (4295, 4295);
   (4301, 4301); (4304, 4346); (4348, 4680); (4682, 4685); (4688, 4694); (4696, 4696);
   (4698, 4701); (4704, 4744); (4746, 4749); (4752, 4784); (4786, 4789); (4792, 4798);
   (4800, 4800); (4802, 4805); (4808, 4822); (4824, 4880); (4882, 4885); (4888, 4954);
   (4992, 5007); (5024, 5109); (5112, 5117); (5121, 5740); (5743, 5759); (5761, 5786);
   (5792, 5866); (5870, 5880); (5888, 5905); (5919, 5937); (5952, 5969); (5984, 5996);
   (5998, 6000); (6016, 6067); (6103, 6103); (6108, 6108); (6176, 6264); (6272, 6312);
   (6314, 6314); (6320, 6389); (6400, 6430); (6480, 6509); (6512, 6516); (6528, 6571);
   (6576, 6601); (6656, 6678); (6688, 6740); (6823, 6823); (6917, 6963); (6981, 6988);
   (7043, 7072); (7086, 7087); (7098, 7141); (7168, 7203); (7245, 7247); (7258, 7293);
   (7296, 7304); (7312, 7354); (7357, 7359); (7401, 7404); (7406, 7411); (7413, 7414);
   (7418, 7418); (7424, 7615); (7680, 7957); (7960, 7965); (7968, 8005); (8008, 8013);
   (8016, 8023); (8025, 8025); (8027, 8027); (8029, 8029); (8031, 8061); (8064, 8116);
   (8118, 8124); (8126, 8126); (8130, 8132); (8134, 8140); (8144, 8147); (8150, 8155);
   (8160, 8172); (8178, 8180); (8182, 8188); (8305, 8305); (8319, 8319); (8336, 8348);
   (8450, 8450); (8455, 8455); (8458, 8467); (8469, 8469); (8472, 8477); (8484, 8484);
   (8486, 8486); (8488, 8488); (8490, 8505); (8508, 8511); (8517, 8521); (8526, 8526);
   (8544, 8584); (11264, 11492); (11499, 11502); (11506, 11507); (11520, 11557); (11559, 11559);
   (11565, 11565); (11568, 11623); (11631, 11631); (11648, 11670); (11680, 11686); (11688, 11694);
   (11696, 11702); (11704, 11710); (11712, 11718); (11720, 11726); (11728, 11734); (11736, 11742);
   (12293, 12295); (12321, 12329); (12337, 12341); (12344, 12348); (12353, 12438); (12443, 12447);
   (12449, 12538); (12540, 12543); (12549, 12591); (12593, 12686); (12704, 12735); (12784, 12799);
   (13312, 19903); (19968, 42124); (42192, 42237); (42240, 42508); (42512, 42527); (42538, 42539);
   (42560, 42606); (42623, 42653); (42656, 42735); (42775, 42783); (42786, 42888); (42891, 42954);
   (42960, 42961); (42963, 42963); (42965, 42969); (42994, 43009); (43011, 43013); (43015, 43018);
   (43020, 43042); (43072, 43123); (43138, 43187); (43250, 43255); (43259, 43259); (43261, 43262);
   (43274, 43301); (43312, 43334); (43360, 43388); (43396, 43442); (43471, 43471); (43488, 43492);
   (43494, 43503); (43514, 43518); (43520, 43560); (43584, 43586); (43588, 43595); (43616, 43638);
   (43642, 43642); (43646, 43695); (43697, 43697); (43701, 43702); (43705, 43709); (43712, 43712);
   (43714, 43714); (43739, 43741); (43744, 43754); (43762, 43764); (43777, 43782); (43785, 43790);
   (43793, 43798); (43808, 43814); (43816, 43822); (43824, 43866); (43868, 43881); (43888, 44002);
   (44032, 55203); (55216, 55238); (55243, 55291); (63744, 64109); (64112, 64217); (64256, 64262);
   (64275, 64279); (64285, 64285); (64287, 64296); (64298, 64310); (64312, 64316); (64318, 64318);
   (64320, 64321); (64323, 64324); (64326, 64433); (64467, 64829); (64848, 64911); (64914, 64967);
   (65008, 65019); (65136, 65140); (65142, 65276); (65313, 65338); (65345, 65370); (65382, 65470);
   (65474, 65479); (65482, 65487); (65490, 65495); (65498, 65500); (65536, 65547); (65549, 65574);
   (65576, 65594); (65596, 65597); (65599, 65613); (65616, 65629); (65664, 65786); (65856, 65908);
   (66176, 66204); (66208, 66256); (66304, 66335); (66349, 66378); (66384, 66421); (66432, 66461);
   (66464, 66499); (66504, 66511); (66513, 66517); (66560, 66717); (66736, 66771); (66776, 66811);
   (66816, 66855); (66864, 66915); (66928, 66938); (66940, 66954); (66956, 66962); (66964, 66965);
   (66967, 66977); (66979, 66993); (66995, 67001); (67003, 67004); (67072, 67382); (67392, 67413);
   (67424, 67431); (67456, 67461); (67463, 67504); (67506, 67514); (67584, 67589); (67592, 67592);
   (67594, 67637); (67639, 67640); (67644, 67644); (67647, 67669); (67680, 67702); (67712, 67742);
   (67808, 67826); (67828, 67829); (67840, 67861); (67872, 67897); (67968, 68023); (68030, 68031);
   (68096, 68096); (68112, 68115); (68117, 68119); (68121, 68149); (68192, 68220); (68224, 68252);
   (68288, 68295); (68297, 68324); (68352, 68405); (68416, 68437); (68448, 68466); (68480, 68497);
   (68608, 68680); (68736, 68786); (68800, 68850); (68864, 68899); (69248, 69289); (69296, 69297);
   (69376, 69404); (69415, 69415); (69424, 69445); (69488, 69505); (69552, 69572); (69600, 69622);
   (69635, 69687); (69745, 69746); (69749, 69749); (69763, 69807); (69840, 69864); (69891, 69926);
   (69956, 69956); (69959, 69959); (69968, 70002); (70006, 70006); (70019, 70066); (70081, 70084);
   (70106, 70106); (70108, 70108); (70144, 70161); (70163, 70187); (70272, 70278); (70280, 70280);
   (70282, 70285); (70287, 70301); (70303, 70312); (70320, 70366); (70405, 70412); (70415, 70416);
   (70419, 70440); (70442, 70448); (70450, 70451); (70453, 70457); (70461, 70461); (70480, 70480);
   (70493, 70497); (70656, 70708); (70727, 70730); (70751, 70753); (70784, 70831); (70852, 70853);
   (70855, 70855); (71040, 71086); (71128, 71131); (71168, 71215); (71236, 71236); (71296, 71338);
   (71352, 71352); (71424, 71450); (71488, 71494); (71680, 71723); (71840, 71903); (71935, 71942);
   (71945, 71945); (71948, 71955); (71957, 71958); (71960, 71983); (71999, 71999); (72001, 72001);
   (72096, 72103); (72106, 72144); (72161, 72161); (72163, 72163); (72192, 72192); (72203, 72242);
   (72250, 72250); (72272, 72272); (72284, 72329); (72349, 72349); (72368, 72440); (72704, 72712);
   (72714, 72750); (72768, 72768); (72818, 72847); (72960, 72966); (72968, 72969); (72971, 73008);
   (73030, 73030); (73056, 73061); (73063, 73064); (73066, 73097); (73112, 73112); (73440, 73458);
   (73648, 73648); (73728, 74649); (74752, 74862); (74880, 75075); (77712, 77808); (77824, 78894);
   (82944, 83526); (92160, 92728); (92736, 92766); (92784, 92862); (92880, 92909); (92928, 92975);
   (92992, 92995); (93027, 93047); (93053, 93071); (93760, 93823); (93952, 94026); (94032, 94032);
   (94099, 94111); (94176, 94177); (94179, 94179); (94208, 100343); (100352, 101589); (101632, 101640);
   (110576, 110579); (110581, 110587); (110589, 110590); (110592, 110882); (110928, 110930); (110948, 110951);
   (110960, 111355); (113664, 113770); (113776, 113788); (113792, 113800); (113808, 113817); (119808, 119892);
   (119894, 119964); (119966, 119967); (119970, 119970); (119973, 119974); (119977, 119980); (119982, 119993);
   (119995, 119995); (119997, 120003); (120005, 120069); (120071, 120074); (120077, 120084); (120086, 120092);
   (120094, 120121); (120123, 120126); (120128, 120132); (120134, 120134); (120138, 120144); (120146, 120485);
   (120488, 120512); (120514, 120538); (120540, 120570); (120572, 120596); (120598, 120628); (120630, 120654);
   (120656, 120686); (120688, 120712); (120714, 120744); (120746, 120770); (120772, 120779); (122624, 122654);
   (123136, 123180); (123191, 123197); (123214, 123214); (123536, 123565); (123584, 123627); (124896, 124902);
   (124904, 124907); (124909, 124910); (124912, 124926); (124928, 125124); (125184, 125251); (125259, 125259);
   (126464, 126467); (126469, 126495); (126497, 126498); (126500, 126500); (126503, 126503); (126505, 126514);
   (126516, 126519); (126521, 126521); (126523, 126523); (126530, 126530); (126535, 126535); (126537, 126537);
   (126539, 126539); (126541, 126543); (126545, 126546); (126548, 126548); (126551, 126551); (126553, 126553);
   (126555, 126555); (126557, 126557); (126559, 126559); (126561, 126562); (126564, 126564); (126567, 126570);
   (126572, 126578); (126580, 126583); (126585, 126588); (126590, 126590); (126592, 126601); (126603, 126619);
   (126625, 126627); (126629, 126633); (126635, 126651); (131072, 173791); (173824, 177976); (177984, 178205);
   (178208, 183969); (183984, 191456); (194560, 195101); (196608, 201546)].

Definition id_continue_ranges : list (Z * Z) :=
  [(170, 170); (181, 181); (183, 183); (186, 186); (192, 214); (216, 246);
   (248, 705); (710, 721); (736, 740); (748, 748); (750, 750); (768, 884);
   (886, 887); (890, 893); (895, 895); (902, 906); (908, 908); (910, 929);
   (931, 1013); (1015, 1153); (1155, 1159); (1162, 1327); (1329, 1366); (1369, 1369);
   (1376, 1416); (1425, 1469); (1471, 1471); (1473, 1474); (1476, 1477); (1479, 1479);
   (1488, 1514); (1519, 1522); (1552, 1562); (1568, 1641); (1646, 1747); (1749, 1756);
   (1759, 1768); (1770, 1788); (1791, 1791); (1808, 1866); (1869, 1969); (1984, 2037);
   (2042, 2042); (2045, 2045); (2048, 2093); (2112, 2139); (2144, 2154); (2160, 2183);
   (2185, 2190); (2200, 2273); (2275, 2403); (2406, 2415); (2417, 2435); (2437, 2444);
   (2447, 2448); (2451, 2472); (2474, 2480); (2482, 2482); (2486, 2489); (2492, 2500);
   (2503, 2504); (2507, 2510); (2519, 2519); (2524, 2525); (2527, 2531); (2534, 2545);
   (2556, 2556); (2558, 2558); (2561, 2563); (2565, 2570); (2575, 2576); (2579, 2600);
   (2602, 2608); (2610, 2611); (2613, 2614); (2616, 2617); (2620, 2620); (2622, 2626);
   (2631, 2632); (2635, 2637); (2641, 2641); (2649, 2652); (2654, 2654); (2662, 2677);
   (2689, 2691); (2693, 2701); (2703, 2705); (2707, 2728); (2730, 2736); (2738, 2739);
   (2741, 2745); (2748, 2757); (2759, 2761); (2763, 2765); (2768, 2768); (2784, 2787);
   (2790, 2799); (2809, 2815); (2817, 2819); (2821, 2828); (2831, 2832); (2835, 2856);
   (2858, 2864); (2866, 2867); (2869, 2873); (2876, 2884); (2887, 2888); (2891, 2893);
   (2901, 2903); (2908, 2909); (2911, 2915); (2918, 2927); (2929, 2929); (2946, 2947);
   (2949, 2954); (2958, 2960); (2962, 2965); (2969, 2970); (2972, 2972); (2974, 2975);
   (2979, 2980); (2984, 2986); (2990, 3001); (3006, 3010); (3014, 3016); (3018, 3021);
   (3024, 3024); (3031, 3031); (3046, 3055); (3072, 3084); (3086, 3088); (3090, 3112);
   (3114, 3129); (3132, 3140); (3142, 3144); (3146, 3149); (3157, 3158); (3160, 3162);
   (3165, 3165); (3168, 3171); (3174, 3183); (3200, 3203); (3205, 3212); (3214, 3216);
   (3218, 3240); (3242, 3251); (3253, 3257); (3260, 3268); (3270, 3272); (3274, 3277);
   (3285, 3286); (3293, 3294); (3296, 3299); (3302, 3311); (3313, 3314); (3328, 3340);
   (3342, 3344); (3346, 3396); (3398, 3400); (3402, 3406); (3412, 3415); (3423, 3427);
   (3430, 3439); (3450, 3455); (3457, 3459); (3461, 3478); (3482, 3505); (3507, 3515);
   (3517, 3517); (3520, 3526); (3530, 3530); (3535, 3540); (3542, 3542); (3544, 3551);
   (3558, 3567); (3570, 3571); (3585, 3642); (3648, 3662); (3664, 3673); (3713, 3714);
   (3716, 3716); (3718, 3722); (3724, 3747); (3749, 3749); (3751, 3773); (3776, 3780);
   (3782, 3782); (3784, 3789); (3792, 3801); (3804, 3807); (3840, 3840); (3864, 3865);
   (3872, 3881); (3893, 3893); (3895, 3895); (3897, 3897); (3902, 3911); (3913, 3948);
   (3953, 3972); (3974, 3991); (3993, 4028); (4038, 4038); (4096, 4169); (4176, 4253);
   (4256, 4293); (4295, 4295); (4301, 4301); (4304, 4346); (4348, 4680); (4682, 4685);
   (4688, 4694); (4696, 4696); (4698, 4701); (4704, 4744); (4746, 4749); (4752, 4784);
   (4786, 4789); (4792, 4798); (4800, 4800); (4802, 4805); (4808, 4822); (4824, 4880);
   (4882, 4885); (4888, 4954); (4957, 4959); (4969, 4977); (4992, 5007); (5024, 5109);
   (5112, 5117); (5121, 5740); (5743, 5759); (5761, 5786); (5792, 5866); (5870, 5880);
   (5888, 5909); (5919, 5940); (5952, 5971); (5984, 5996); (5998, 6000); (6002, 6003);
   (6016, 6099); (6103, 6103); (6108, 6109); (6112, 6121); (6155, 6157); (6159, 6169);
   (6176, 6264); (6272, 6314); (6320, 6389); (6400, 6430); (6432, 6443); (6448, 6459);
   (6470, 6509); (6512, 6516); (6528, 6571); (6576, 6601); (6608, 6618); (6656, 6683);
   (6688, 6750); (6752, 6780); (6783, 6793); (6800, 6809); (6823, 6823); (6832, 6845);
   (6847, 6862); (6912, 6988); (6992, 7001); (7019, 7027); (7040, 7155); (7168, 7223);
   (7232, 7241); (7245, 7293); (7296, 7304); (7312, 7354); (7357, 7359); (7376, 7378);
   (7380, 7418); (7424, 7957); (7960, 7965); (7968, 8005); (8008, 8013); (8016, 8023);
   (8025, 8025); (8027, 8027); (8029, 8029); (8031, 8061); (8064, 8116); (8118, 8124);
   (8126, 8126); (8130, 8132); (8134, 8140); (8144, 8147); (8150, 8155); (8160, 8172);
   (8178, 8180); (8182, 8188); (8255, 8256); (8276, 8276); (8305, 8305); (8319, 8319);
   (8336, 8348); (8400, 8412); (8417, 8417); (8421, 8432); (8450, 8450); (8455, 8455);
   (8458, 8467); (8469, 8469); (8472, 8477); (8484, 8484); (8486, 8486); (8488, 8488);
   (8490, 8505); (8508, 8511); (8517, 8521); (8526, 8526); (8544, 8584); (11264, 11492);
   (11499, 11507); (11520, 11557); (11559, 11559); (11565, 11565); (11568, 11623); (11631, 11631);
   (11647, 11670); (11680, 11686); (11688, 11694); (11696, 11702); (11704, 11710); (11712, 11718);
   (11720, 11726); (11728, 11734); (11736, 11742); (11744, 11775); (12293, 12295); (12321, 12335);
   (12337, 12341); (12344, 12348); (12353, 12438); (12441, 12447); (12449, 12538); (12540, 12543);
   (12549, 12591); (12593, 12686); (12704, 12735); (12784, 12799); (13312, 19903); (19968, 42124);
   (42192, 42237); (42240, 42508); (42512, 42539); (42560, 42607); (42612, 42621); (42623, 42737);
   (42775, 42783); (42786, 42888); (42891, 42954); (42960, 42961); (42963, 42963); (42965, 42969);
   (42994, 43047); (43052, 43052); (43072, 43123); (43136, 43205); (43216, 43225); (43232, 43255);
   (43259, 43259); (43261, 43309); (43312, 43347); (43360, 43388); (43392, 43456); (43471, 43481);
   (43488, 43518); (43520, 43574); (43584, 43597); (43600, 43609); (43616, 43638); (43642, 43714);
   (43739, 43741); (43744, 43759); (43762, 43766); (43777, 43782); (43785, 43790); (43793, 43798);
   (43808, 43814); (43816, 43822); (43824, 43866); (43868, 43881); (43888, 44010); (44012, 44013);
   (44016, 44025); (44032, 55203); (55216, 55238); (55243, 55291); (63744, 64109); (64112, 64217);
   (64256, 64262); (64275, 64279); (64285, 64296); (64298, 64310); (64312, 64316); (64318, 64318);
   (64320, 64321); (64323, 64324); (64326, 64433); (64467, 64829); (64848, 64911); (64914, 64967);
   (65008, 65019); (65024, 65039); (65056, 65071); (65075, 65076); (65101, 65103); (65136, 65140);
   (65142, 65276); (65296, 65305); (65313, 65338); (65343, 65343); (65345, 65370); (65382, 65470);
   (65474, 65479); (65482, 65487); (65490, 65495); (65498, 65500); (65536, 65547); (65549, 65574);
   (65576, 65594); (65596, 65597); (65599, 65613); (65616, 65629); (65664, 65786); (65856, 65908);
   (66045, 66045); (66176, 66204); (66208, 66256); (66272, 66272); (66304, 66335); (66349, 66378);
   (66384, 66426); (66432, 66461); (66464, 66499); (66504, 66511); (66513, 66517); (66560, 66717);
   (66720, 66729); (66736, 66771); (66776, 66811); (66816, 66855); (66864, 66915); (66928, 66938);
   (66940, 66954); (66956, 66962); (66964, 66965); (66967, 66977); (66979, 66993); (66995, 67001);
   (67003, 67004); (67072, 67382); (67392, 67413); (67424, 67431); (67456, 67461); (67463, 67504);
   (67506, 67514); (67584, 67589); (67592, 67592); (67594, 67637); (67639, 67640); (67644, 67644);
   (67647, 67669); (67680, 67702); (67712, 67742); (67808, 67826); (67828, 67829); (67840, 67861);
   (67872, 67897); (67968, 68023); (68030, 68031); (68096, 68099); (68101, 68102); (68108, 68115);
   (68117, 68119); (68121, 68149); (68152, 68154); (68159, 68159); (68192, 68220); (68224, 68252);
   (68288, 68295); (68297, 68326); (68352, 68405); (68416, 68437); (68448, 68466); (68480, 68497);
   (68608, 68680); (68736, 68786); (68800, 68850); (68864, 68903); (68912, 68921); (69248, 69289);
   (69291, 69292); (69296, 69297); (69376, 69404); (69415, 69415); (69424, 69456); (69488, 69509);
   (69552, 69572); (69600, 69622); (69632, 69702); (69734, 69749); (69759, 69818); (69826, 69826);
   (69840, 69864); (69872, 69881); (69888, 69940); (69942, 69951); (69956, 69959); (69968, 70003);
   (70006, 70006); (70016, 70084); (70089, 70092); (70094, 70106); (70108, 70108); (70144, 70161);
   (70163, 70199); (70206, 70206); (70272, 70278); (70280, 70280); (70282, 70285); (70287, 70301);
   (70303, 70312); (70320, 70378); (70384, 70393); (70400, 70403); (70405, 70412); (70415, 70416);
   (70419, 70440); (70442, 70448); (70450, 70451); (70453, 70457); (70459, 70468); (70471, 70472);
   (70475, 70477); (70480, 70480); (70487, 70487); (70493, 70499); (70502, 70508); (70512, 70516);
   (70656, 70730); (70736, 70745); (70750, 70753); (70784, 70853); (70855, 70855); (70864, 70873);
   (71040, 71093); (71096, 71104); (71128, 71133); (71168, 71232); (71236, 71236); (71248, 71257);
   (71296, 71352); (71360, 71369); (71424, 71450); (71453, 71467); (71472, 71481); (71488, 71494);
   (71680, 71738); (71840, 71913); (71935, 71942); (71945, 71945); (71948, 71955); (71957, 71958);
   (71960, 71989); (71991, 71992); (71995, 72003); (72016, 72025); (72096, 72103); (72106, 72151);
   (72154, 72161); (72163, 72164); (72192, 72254); (72263, 72263); (72272, 72345); (72349, 72349);
   (72368, 72440); (72704, 72712); (72714, 72758); (72760, 72768); (72784, 72793); (72818, 72847);
   (72850, 72871); (72873, 72886); (72960, 72966); (72968, 72969); (72971, 73014); (73018, 73018);
   (73020, 73021); (73023, 73031); (73040, 73049); (73056, 73061); (73063, 73064); (73066, 73102);
   (73104, 73105); (73107, 73112); (73120, 73129); (73440, 73462); (73648, 73648); (73728, 74649);
   (74752, 74862); (74880, 75075); (77712, 77808); (77824, 78894); (82944, 83526); (92160, 92728);
   (92736, 92766); (92768, 92777); (92784, 92862); (92864, 92873); (92880, 92909); (92912, 92916);
   (92928, 92982); (92992, 92995); (93008, 93017); (93027, 93047); (93053, 93071); (93760, 93823);
   (93952, 94026); (94031, 94087); (94095, 94111); (94176, 94177); (94179, 94180); (94192, 94193);
   (94208, 100343); (100352, 101589); (101632, 101640); (110576, 110579); (110581, 110587); (110589, 110590);
   (110592, 110882); (110928, 110930); (110948, 110951); (110960, 111355); (113664, 113770); (113776, 113788);
   (113792, 113800); (113808, 113817); (113821, 113822); (118528, 118573); (118576, 118598); (119141, 119145);
   (119149, 119154); (119163, 119170); (119173, 119179); (119210, 119213); (119362, 119364); (119808, 119892);
   (119894, 119964); (119966, 119967); (119970, 119970); (119973, 119974); (119977, 119980); (119982, 119993);
   (119995, 119995); (119997, 120003); (120005, 120069); (120071, 120074); (120077, 120084); (120086, 120092);
   (120094, 120121); (120123, 120126); (120128, 120132); (120134, 120134); (120138, 120144); (120146, 120485);
   (120488, 120512); (120514, 120538); (120540, 120570); (120572, 120596); (120598, 120628); (120630, 120654);
   (120656, 120686); (120688, 120712); (120714, 120744); (120746, 120770); (120772, 120779); (120782, 120831);
   (121344, 121398); (121403, 121452); (121461, 121461); (121476, 121476); (121499, 121503); (121505, 121519);
   (122624, 122654); (122880, 122886); (122888, 122904); (122907, 122913); (122915, 122916); (122918, 122922);
   (123136, 123180); (123184, 123197); (123200, 123209); (123214, 123214); (123536, 123566); (123584, 123641);
   (124896, 124902); (124904, 124907); (124909, 124910); (124912, 124926); (124928, 125124); (125136, 125142);
   (125184, 125259); (125264, 125273); (126464, 126467); (126469, 126495); (126497, 126498); (126500, 126500);
   (126503, 126503); (126505, 126514); (126516, 126519); (126521, 126521); (126523, 126523); (126530, 126530);
   (126535, 126535); (126537, 126537); (126539, 126539); (126541, 126543); (126545, 126546); (126548, 126548);
   (126551, 126551); (126553, 126553); (126555, 126555); (126557, 126557); (126559, 126559); (126561, 126562);
   (126564, 126564); (126567, 126570); (126572, 126578); (126580, 126583); (126585, 126588); (126590, 126590);
   (126592, 126601); (126603, 126619); (126625, 126627); (126629, 126633); (126635, 126651); (130032, 130041);
   (131072, 173791); (173824, 177976); (177984, 178205); (178208, 183969); (183984, 191456); (194560, 195101);
   (196608, 201546); (917760, 917999)].

Definition in_ranges (c : Z) (l : list (Z * Z)) : bool :=
  existsb (fun r => (fst r <=? c) && (c <=? snd r)) l.

(** Modelled from the spec: identifier-start characters, Unicode-aware
    as in ECMAScript: ASCII letters, [$], [_] and the code points with the
    Unicode property ID_Start. *)
Definition id_start (c : Z) : bool :=
  is_ascii_alpha c || (c =? 36) || (c =? 95)
  || ((128 <=? c) && in_ranges c id_start_ranges).

(** Modelled from the spec: identifier-continue characters: the
    identifier-start characters, the decimal digits, ZWNJ and ZWJ
    (U+200C, U+200D) and the code points with the Unicode property
    ID_Continue. *)
Definition id_continue (c : Z) : bool :=
  id_start c || is_dec c || (c =? 8204) || (c =? 8205)
  || ((128 <=? c) && in_ranges c id_continue_ranges).

(** ** Token kinds ([rslint_syntax::SyntaxKind], the lexical part) *)

Inductive SyntaxKind :=
| IDENT | NUMBER | STRING | REGEX | WHITESPACE | COMMENT | ERROR_TOKEN | EOF
| BACKTICK | TEMPLATE_CHUNK | DOLLARCURLY
(* punctuators *)
| SEMICOLON | COMMA | L_PAREN | R_PAREN | L_CURLY | R_CURLY | L_BRACK | R_BRACK
| L_ANGLE | R_ANGLE | TILDE | QUESTION | QUESTION2 | QUESTIONDOT | AMP | PIPE
| PLUS | PLUS2 | STAR | STAR2 | SLASH | CARET | PERCENT | DOT | DOT3 | COLON
| EQ | EQ2 | EQ3 | FAT_ARROW | BANG | NEQ | NEQ2 | MINUS | MINUS2 | LTEQ | GTEQ
| PLUSEQ | MINUSEQ | PIPEEQ | AMPEQ | CARETEQ | SLASHEQ | STAREQ | PERCENTEQ
| AMP2 | PIPE2 | SHL | SHR | USHR | SHLEQ | SHREQ | USHREQ | AMP2EQ | PIPE2EQ
| STAR2EQ | QUESTION2EQ | AT
(* keywords *)
| AWAIT_KW | BREAK_KW | CASE_KW | CATCH_KW | CLASS_KW | CONST_KW | CONTINUE_KW
| DEBUGGER_KW | DEFAULT_KW | DELETE_KW | DO_KW | ELSE_KW | ENUM_KW | EXPORT_KW
| EXTENDS_KW | FALSE_KW | FINALLY_KW | FOR_KW | FUNCTION_KW | IF_KW | IN_KW
| INSTANCEOF_KW | IMPORT_KW | NEW_KW | NULL_KW | RETURN_KW | SUPER_KW
| SWITCH_KW | THIS_KW | THROW_KW | TRUE_KW | TRY_KW | TYPEOF_KW | VAR_KW
| VOID_KW | WHILE_KW | WITH_KW | YIELD_KW.

Local Open Scope string_scope.

(** Modelled from the spec: the fixed keyword table (section 4.2). *)
Definition keywords : list (string * SyntaxKind) :=
  [("await", AWAIT_KW); ("break", BREAK_KW); ("case", CASE_KW);
   ("catch", CATCH_KW); ("class", CLASS_KW); ("const", CONST_KW);
   ("continue", CONTINUE_KW); ("debugger", DEBUGGER_KW);
   ("default", DEFAULT_KW); ("delete", DELETE_KW); ("do", DO_KW);
   ("else", ELSE_KW); ("enum", ENUM_KW); ("export", EXPORT_KW);
   ("extends", EXTENDS_KW); ("false", FALSE_KW); ("finally", FINALLY_KW);
   ("for", FOR_KW); ("function", FUNCTION_KW); ("if", IF_KW); ("in", IN_KW);
   ("instanceof", INSTANCEOF_KW); ("import", IMPORT_KW); ("new", NEW_KW);
   ("null", NULL_KW); ("return", RETURN_KW); ("super", SUPER_KW);
   ("switch", SWITCH_KW); ("this", THIS_KW); ("throw", THROW_KW);
   ("true", TRUE_KW); ("try", TRY_KW); ("typeof", TYPEOF_KW);
   ("var", VAR_KW); ("void", VOID_KW); ("while", WHILE_KW);
   ("with", WITH_KW); ("yield", YIELD_KW)].

Local Close Scope string_scope.

Fixpoint list_Z_eqb (a b : list Z) : bool :=
  match a, b with
  | [], [] => true
  | x :: a', y :: b' => (x =? y) && list_Z_eqb a' b'
  | _, _ => false
  end.

(** Exact-text keyword lookup; anything else is an identifier. *)
Definition keyword_kind (text : list Z) : SyntaxKind :=
  match find (fun p => list_Z_eqb (str (fst p)) text) keywords with
  | Some (_, k) => k
  | None => IDENT
  end.

Local Open Scope string_scope.

(** Modelled from the spec: the fixed table of 1-4 character operators
    (section 4.3), longest entries first.  [/] and [/=] belong to the
    regex/division disambiguator, braces to the template tracking, and a
    dot before a digit to the numeric scanner; they are dispatched before
    the table is consulted. *)
Definition punctuators : list (string * SyntaxKind) :=
  [(">>>=", USHREQ);
   ("...", DOT3); ("===", EQ3); ("!==", NEQ2); ("**=", STAR2EQ);
   ("<<=", SHLEQ); (">>=", SHREQ); (">>>", USHR); ("&&=", AMP2EQ);
   ("||=", PIPE2EQ); ("??=", QUESTION2EQ);
   ("=>", FAT_ARROW); ("==", EQ2); ("!=", NEQ); ("<=", LTEQ); (">=", GTEQ);
   ("&&", AMP2); ("||", PIPE2); ("??", QUESTION2); ("?.", QUESTIONDOT);
   ("++", PLUS2); ("--", MINUS2); ("+=", PLUSEQ); ("-=", MINUSEQ);
   ("*=", STAREQ); ("%=", PERCENTEQ); ("&=", AMPEQ); ("|=", PIPEEQ);
   ("^=", CARETEQ); ("<<", SHL); (">>", SHR); ("**", STAR2);
   (";", SEMICOLON); (",", COMMA); ("(", L_PAREN); (")", R_PAREN);
   ("[", L_BRACK); ("]", R_BRACK); ("<", L_ANGLE); (">", R_ANGLE);
   ("~", TILDE); ("?", QUESTION); ("&", AMP); ("|", PIPE); ("+", PLUS);
   ("*", STAR); ("^", CARET); ("%", PERCENT); (".", DOT); (":", COLON);
   ("=", EQ); ("!", BANG); ("-", MINUS); ("@", AT)].

Local Close Scope string_scope.

Fixpoint is_prefix (p s : list Z) : bool :=
  match p, s with
  | [], _ => true
  | x :: p', y :: s' => (x =? y) && is_prefix p' s'
  | _ :: _, [] => false
  end.

(** Greedy longest match: the first entry of the table (longest first)
    that is a prefix of the input. *)
Definition punct_match (cs : list Z) : option (SyntaxKind * nat) :=
  match find (fun p => is_prefix (str (fst p)) cs) punctuators with
  | Some (s, k) => Some (k, length (str s))
  | None => None
  end.

(** ** Sub-scanners (spec section 4)

    Every sub-scanner receives the remaining input and returns how many
    code points it consumes; the driver turns that count into a byte
    length.  Scanners that must look ahead before consuming keep a
    [skip] counter so that their recursion stays structural. *)

Definition c_bang := 33.
Definition c_dquote := 34.
Definition c_hash := 35.
Definition c_dollar := 36.
Definition c_squote := 39.
Definition c_star := 42.
Definition c_dot := 46.
Definition c_slash := 47.
Definition c_eq := 61.
Definition c_lbrack := 91.
Definition c_backslash := 92.
Definition c_rbrack := 93.
Definition c_backtick := 96.
Definition c_lcurly := 123.
Definition c_rcurly := 125.

Definition next_is (p : Z -> bool) (cs : list Z) : bool :=
  match cs with
  | d :: _ => p d
  | [] => false
  end.

Fixpoint take_while (p : Z -> bool) (cs : list Z) : nat :=
  match cs with
  | [] => 0%nat
  | c :: r => if p c then S (take_while p r) else 0%nat
  end.

Definition incr {A} (t : A * nat) : A * nat := (fst t, S (snd t)).

(** *** String literals (section 4.5)

    A character-by-character scanner.  [valid] turns false as soon as
    one escape is malformed; the scan still runs to the closing quote.
    An unescaped line terminator ends an unterminated literal before it;
    after a backslash it is a line continuation. *)
Inductive str_mode :=
| SNorm                       (* ordinary content *)
| SEsc                        (* just after a backslash *)
| SHex (need : nat)           (* hex digits still required by \xHH / \uHHHH *)
| SUStart                     (* just after \u *)
| SBrace (digits : nat) (v : Z). (* inside \u{...} *)

Fixpoint scan_str (q : Z) (m : str_mode) (valid : bool) (cs : list Z)
  : SyntaxKind * nat :=
  match cs with
  | [] => (ERROR_TOKEN, 0%nat)     (* unterminated: everything consumed *)
  | c :: r =>
    let norm (v : bool) :=
      if c =? q then ((if v then STRING else ERROR_TOKEN), 1%nat)
      else if is_line_term c then (ERROR_TOKEN, 0%nat)  (* unterminated at the end of the line *)
      else if c =? c_backslash then incr (scan_str q SEsc v r)
      else incr (scan_str q SNorm v r) in
    match m with
    | SNorm | SHex 0 => norm valid
    | SEsc =>
      if c =? 120 then incr (scan_str q (SHex 2) valid r)          (* \x *)
      else if c =? 117 then incr (scan_str q SUStart valid r)      (* \u *)
      else incr (scan_str q SNorm valid r)          (* one-character escape *)
    | SHex (S k) =>
      if is_hex c then incr (scan_str q (SHex k) valid r) else norm false
    | SUStart =>
      if c =? c_lcurly then incr (scan_str q (SBrace 0 0) valid r)
      else if is_hex c then incr (scan_str q (SHex 3) valid r)
      else norm false
    | SBrace n v =>
      if is_hex c then incr (scan_str q (SBrace (S n) (v * 16 + hex_val c)) valid r)
      else if (c =? c_rcurly) && Nat.ltb 0 n && (v <=? 1114111)
      then incr (scan_str q SNorm valid r)
      else norm false
    end
  end.

(** *** Template chunks (section 4.6): up to a backtick or [${];
    an escaped character never ends the chunk. *)
Fixpoint scan_chunk (esc : bool) (cs : list Z) : nat :=
  match cs with
  | [] => 0%nat
  | c :: r =>
    if esc then S (scan_chunk false r)
    else if c =? c_backtick then 0%nat
    else if (c =? c_dollar) && next_is (Z.eqb c_lcurly) r then 0%nat
    else S (scan_chunk (c =? c_backslash) r)
  end.

(** *** Block comments (section 4.7): up to the first [*/] or end of input. *)
Fixpoint scan_block (star : bool) (cs : list Z) : nat :=
  match cs with
  | [] => 0%nat
  | c :: r => if star && (c =? c_slash) then 1%nat else S (scan_block (c =? c_star) r)
  end.

(** *** Regular expression bodies (section 4.8): up to an unescaped [/]
    outside a character class, then the alphabetic flags.  The boolean
    says whether the closing slash was found. *)
Inductive re_mode := RNorm | RClass | REsc (in_class : bool).

Fixpoint scan_regex (m : re_mode) (cs : list Z) : bool * nat :=
  match cs with
  | [] => (false, 0%nat)
  | c :: r =>
    match m with
    | REsc cl => incr (scan_regex (if cl then RClass else RNorm) r)
    | RNorm =>
      if c =? c_slash then (true, S (take_while is_ascii_alpha r))
      else if c =? c_backslash then incr (scan_regex (REsc false) r)
      else if c =? c_lbrack then incr (scan_regex RClass r)
      else incr (scan_regex RNorm r)
    | RClass =>
      if c =? c_rbrack then incr (scan_regex RNorm r)
      else if c =? c_backslash then incr (scan_regex (REsc true) r)
      else incr (scan_regex RClass r)
    end
  end.

(** *** Unicode escapes [\uHHHH] and [\u{H...}] outside strings:
    length of the escape and the decoded code point. *)
Fixpoint braced_hex (n : nat) (v : Z) (cs : list Z) : option (nat * Z) :=
  match cs with
  | [] => None
  | c :: r =>
    if is_hex c then braced_hex (S n) (v * 16 + hex_val c) r
    else if (c =? c_rcurly) && Nat.ltb 0 n && (v <=? 1114111) then Some (S n, v)
    else None
  end.

Definition unicode_escape (cs : list Z) : option (nat * Z) :=
  match cs with
  | b :: u :: r =>
    if (b =? c_backslash) && (u =? 117) then
      match r with
      | l :: r' =>
        if l =? c_lcurly then
          match braced_hex 0 0 r' with
          | Some (n, v) => Some ((3 + n)%nat, v)
          | None => None
          end
        else
          match r with
          | h1 :: h2 :: h3 :: h4 :: _ =>
            if is_hex h1 && is_hex h2 && is_hex h3 && is_hex h4
            then Some (6%nat, ((hex_val h1 * 16 + hex_val h2) * 16 + hex_val h3) * 16 + hex_val h4)
            else None
          | _ => None
          end
      | [] => None
      end
    else None
  | _ => None
  end.

(** *** Identifiers (section 4.2): identifier characters and escapes
    resolving to identifier characters. *)
Fixpoint ident_run (skip : nat) (cs : list Z) : nat :=
  match cs with
  | [] => 0%nat
  | c :: r =>
    match skip with
    | S k => S (ident_run k r)
    | O =>
      if id_continue c then S (ident_run 0 r)
      else match unicode_escape cs with
           | Some (k, v) => if id_continue v then S (ident_run (k - 1) r) else 0%nat
           | None => 0%nat
           end
    end
  end.

Definition scan_ident (cs : list Z) : SyntaxKind * nat :=
  let n := ident_run 0 cs in (keyword_kind (firstn n cs), n).

(** *** Numeric literals (section 4.4) *)

(** Digits of [radix] with [_] separators; a separator must sit between
    two digits. *)
Fixpoint digits_sep (radix : Z) (after_digit : bool) (cs : list Z) : nat :=
  match cs with
  | [] => 0%nat
  | c :: r =>
    if is_digit radix c then S (digits_sep radix true r)
    else if after_digit && (c =? 95) && next_is (is_digit radix) r
    then S (digits_sep radix false r)
    else 0%nat
  end.

Definition frac_len (cs : list Z) : nat :=
  match cs with
  | d :: r => if d =? c_dot then S (digits_sep 10 false r) else 0%nat
  | [] => 0%nat
  end.

Definition exponent_len (cs : list Z) : nat :=
  match cs with
  | e :: r =>
    if (e =? 101) || (e =? 69) then
      match r with
      | s :: r' =>
        if is_dec s then S (digits_sep 10 false r)
        else if ((s =? 43) || (s =? 45)) && next_is is_dec r'
        then (2 + digits_sep 10 false r')%nat
        else 0%nat
      | [] => 0%nat
      end
    else 0%nat
  | [] => 0%nat
  end.

Definition bigint_len (cs : list Z) : nat :=
  match cs with
  | n :: _ => if n =? 110 then 1%nat else 0%nat
  | [] => 0%nat
  end.

Definition decimal_len (cs : list Z) : nat :=
  let i := digits_sep 10 false cs in
  let f := frac_len (skipn i cs) in
  let e := exponent_len (skipn (i + f) cs) in
  let b := if Nat.eqb f 0 && Nat.eqb e 0 then bigint_len (skipn (i + f + e) cs) else 0%nat in
  (i + f + e + b)%nat.

Definition radix_of (c : Z) : Z :=
  if (c =? 98) || (c =? 66) then 2
  else if (c =? 111) || (c =? 79) then 8
  else if (c =? 120) || (c =? 88) then 16
  else 0.

(** The well-formed part of a literal: [0b]/[0o]/[0x] based literals,
    otherwise a decimal literal. *)
Definition literal_len (cs : list Z) : nat :=
  match cs with
  | z :: p :: d :: _ =>
    let radix := radix_of p in
    if (z =? 48) && negb (radix =? 0) && is_digit radix d then
      let k := (2 + digits_sep radix false (skipn 2 cs))%nat in
      (k + bigint_len (skipn k cs))%nat
    else decimal_len cs
  | _ => decimal_len cs
  end.

(** A literal immediately followed by identifier characters, or by a
    unicode escape resolving to one, extends into one error token over the
    whole identifier-like run; any other continuation closes the literal. *)
Definition scan_number (cs : list Z) : SyntaxKind * nat :=
  let n := literal_len cs in
  let rest := skipn n cs in
  match rest with
  | c :: _ =>
    if id_continue c then (ERROR_TOKEN, (n + ident_run 0 rest)%nat)
    else match unicode_escape rest with
         | Some (_, v) =>
           if id_continue v then (ERROR_TOKEN, (n + ident_run 0 rest)%nat)
           else (NUMBER, n)
         | None => (NUMBER, n)
         end
  | [] => (NUMBER, n)
  end.

(** ** Lexer state and driver (sections 2 and 3) *)

(** Template context: inside a template chunk, or inside an [${ }]
    interpolation with its current brace depth. *)
Inductive tctx := TTemplate | TInterp (depth : nat).

Record LexerState := mkState {
  prev : option SyntaxKind;      (* last non-trivia token *)
  ctx : list tctx                 (* innermost first *)
}.

Definition init_state : LexerState := mkState None [].

Definition is_trivia (k : SyntaxKind) : bool :=
  match k with
  | WHITESPACE | COMMENT => true
  | _ => false
  end.

(** Token kinds after which an expression is complete: [/] divides. *)
Definition expr_end (k : option SyntaxKind) : bool :=
  match k with
  | Some (IDENT | NUMBER | STRING | R_PAREN | R_BRACK
          | THIS_KW | SUPER_KW | TRUE_KW | FALSE_KW | NULL_KW) => true
  | _ => false
  end.

Definition regex_token (r : list Z) : SyntaxKind * nat :=
  let (closed, n) := scan_regex RNorm r in
  ((if closed then REGEX else ERROR_TOKEN), S n).

(** At a [/] (followed by [r]): comments, then division or regex. *)
Definition scan_slash (p : option SyntaxKind) (r : list Z) : SyntaxKind * nat :=
  match r with
  | d :: r' =>
    if d =? c_slash then (COMMENT, (2 + take_while (fun c => negb (is_line_term c)) r')%nat)
    else if d =? c_star then (COMMENT, (2 + scan_block false r')%nat)
    else if expr_end p then (if d =? c_eq then (SLASHEQ, 2%nat) else (SLASH, 1%nat))
    else regex_token r
  | [] => if expr_end p then (SLASH, 1%nat) else regex_token r
  end.

(** A backslash outside strings: an identifier when the escape resolves to
    an identifier-start character, otherwise an error token over the
    escape (or over the lone backslash). *)
Definition scan_ident_or_escape (c : Z) (r : list Z) : SyntaxKind * nat :=
  if id_start c then scan_ident (c :: r)
  else match unicode_escape (c :: r) with
       | Some (k, v) => if id_start v then scan_ident (c :: r) else (ERROR_TOKEN, k)
       | None => (ERROR_TOKEN, 1%nat)
       end.

Definition code_token (p : option SyntaxKind) (cx : list tctx) (c : Z) (r : list Z)
  : SyntaxKind * nat * list tctx :=
  let same (t : SyntaxKind * nat) := (fst t, snd t, cx) in
  if is_ws c then (WHITESPACE, S (take_while is_ws r), cx)
  else if c =? c_slash then same (scan_slash p r)
  else if c =? c_backtick then (BACKTICK, 1%nat, TTemplate :: cx)
  else if (c =? c_squote) || (c =? c_dquote) then same (incr (scan_str c SNorm true r))
  else if is_dec c || ((c =? c_dot) && next_is is_dec r) then same (scan_number (c :: r))
  else if c =? c_lcurly then
    (L_CURLY, 1%nat, match cx with TInterp d :: cx' => TInterp (S d) :: cx' | _ => cx end)
  else if c =? c_rcurly then
    (R_CURLY, 1%nat, match cx with
                     | TInterp 0 :: cx' => cx'
                     | TInterp (S d) :: cx' => TInterp d :: cx'
                     | _ => cx
                     end)
  else if id_start c || (c =? c_backslash) then same (scan_ident_or_escape c r)
  else match punct_match (c :: r) with
       | Some (k, n) => (k, n, cx)
       | None => (ERROR_TOKEN, 1%nat, cx)       (* unrecognized character *)
       end.

Definition chunk_token (outer : list tctx) (cx : list tctx) (c : Z) (r : list Z)
  : SyntaxKind * nat * list tctx :=
  if c =? c_backtick then (BACKTICK, 1%nat, outer)
  else if (c =? c_dollar) && next_is (Z.eqb c_lcurly) r then (DOLLARCURLY, 2%nat, TInterp 0 :: cx)
  else (TEMPLATE_CHUNK, scan_chunk false (c :: r), cx).

(** One dispatch of the driver on a non-empty input [c :: r]: the kind,
    the number of code points consumed and the next state. *)
Definition next_token (st : LexerState) (c : Z) (r : list Z) : SyntaxKind * nat * LexerState :=
  let '(k, n, cx) :=
    match ctx st with
    | TTemplate :: outer => chunk_token outer (ctx st) c r
    | _ => code_token (prev st) (ctx st) c r
    end in
  (k, n, mkState (if is_trivia k then prev st else Some k) cx).

(** The dispatch is in code (not in a template chunk): the context is
    empty or headed by an interpolation. *)
Definition in_code (st : LexerState) : bool :=
  match ctx st with TTemplate :: _ => false | _ => true end.

(** [rslint_lexer::Token] *)
Record Token := mkToken { kind : SyntaxKind; len : nat }.

Fixpoint lex_go (fuel : nat) (st : LexerState) (cs : list Z) : list Token :=
  match cs with
  | [] => [mkToken EOF 0]
  | c :: r =>
    match fuel with
    | O => []
    | S f =>
      let '(k, n, st') := next_token st c r in
      mkToken k (byte_len (firstn n cs)) :: lex_go f st' (skipn n cs)
    end
  end.

(** [Lexer]: the source and the cursor, kept as a code-point index; the
    byte offset [cur] is derived from it. *)
Record Lexer := mkLexer { src : list Z; pos : nat }.

Definition cur (l : Lexer) : nat := byte_len (firstn (pos l) (src l)).

Definition from_str (s : list Z) : Lexer := mkLexer s 0.

(** The tokens the lexer yields from its cursor on, end-of-file last. *)
Definition tokens (l : Lexer) : list Token :=
  let rest := skipn (pos l) (src l) in lex_go (List.length rest) init_state rest.

(** Modelled from the spec: [Lexer::strip_shebang] (not in the sources).
    On a buffer starting with [#!] the cursor moves over the shebang
    line; it stops on the line terminator, which the repository's
    [strip_shebang] test fixes (cursor 13 on [#! /bin/node \n\n]). *)
Definition strip_shebang (l : Lexer) : Lexer :=
  match src l with
  | h :: b :: r =>
    if (h =? c_hash) && (b =? c_bang)
    then mkLexer (src l) (2 + take_while (fun c => negb (is_line_term c)) r)
    else l
  | _ => l
  end.

Definition lex (s : list Z) : list Token := tokens (from_str s).

(** ** Every dispatch consumes at least one and at most all remaining
    code points *)

Ltac split_ifs :=
  repeat match goal with
         | |- context [if ?b then _ else _] => destruct b
         end.

Section Bounds.
Local Open Scope nat_scope.

Lemma take_while_le p cs : take_while p cs <= length cs.
Proof. induction cs as [|c r IH]; simpl; [lia|]. destruct (p c); simpl; lia. Qed.

Lemma scan_str_le q m v cs : snd (scan_str q m v cs) <= length cs.
Proof.
  revert m v; induction cs as [|c r IH]; intros m v; simpl; [lia|].
  destruct m as [| |[|k]| |n w]; split_ifs; simpl;
    first [lia | apply le_n_S, IH].
Qed.

Lemma scan_chunk_le e cs : scan_chunk e cs <= length cs.
Proof.
  revert e; induction cs as [|c r IH]; intros e; simpl; [lia|].
  split_ifs; first [lia | apply le_n_S, IH].
Qed.

Lemma scan_block_le b cs : scan_block b cs <= length cs.
Proof.
  revert b; induction cs as [|c r IH]; intros b; simpl; [lia|].
  split_ifs; first [lia | apply le_n_S, IH].
Qed.

Lemma scan_regex_le m cs : snd (scan_regex m cs) <= length cs.
Proof.
  revert m; induction cs as [|c r IH]; intros m; simpl; [lia|].
  destruct m as [| |[]]; split_ifs; simpl;
    first [lia | apply le_n_S, IH | (pose proof (take_while_le is_ascii_alpha r); lia)].
Qed.

Lemma ident_run_le k cs : ident_run k cs <= length cs.
Proof.
  revert k; induction cs as [|c r IH]; intros k; cbn [ident_run length]; [lia|].
  destruct k as [|k]; [|apply le_n_S, IH].
  destruct (id_continue c); [apply le_n_S, IH|].
  destruct (unicode_escape (c :: r)) as [[k v]|]; [destruct (id_continue v)|];
    first [lia | apply le_n_S, IH].
Qed.

Lemma digits_sep_le x b cs : digits_sep x b cs <= length cs.
Proof.
  revert b; induction cs as [|c r IH]; intros b; simpl; [lia|].
  split_ifs; first [lia | apply le_n_S, IH].
Qed.

Lemma frac_len_le cs : frac_len cs <= length cs.
Proof.
  destruct cs as [|d r]; simpl; [lia|].
  split_ifs; [apply le_n_S, digits_sep_le | lia].
Qed.

Lemma bigint_len_le cs : bigint_len cs <= length cs.
Proof. destruct cs; simpl; [|split_ifs]; lia. Qed.

Lemma exponent_len_le cs : exponent_len cs <= length cs.
Proof.
  destruct cs as [|e [|s r]]; simpl; [lia|split_ifs; lia|].
  pose proof (digits_sep_le 10 false r).
  pose proof (digits_sep_le 10 false (s :: r)).
  simpl in *; split_ifs; simpl; lia.
Qed.

Lemma decimal_len_le cs : decimal_len cs <= length cs.
Proof.
  unfold decimal_len.
  set (i := digits_sep 10 false cs).
  set (f := frac_len (skipn i cs)).
  set (e := exponent_len (skipn (i + f) cs)).
  assert (Hi : i <= length cs) by apply digits_sep_le.
  assert (Hf : f <= length cs - i)
    by (rewrite <- length_skipn; apply frac_len_le).
  assert (He : e <= length cs - (i + f))
    by (rewrite <- length_skipn; apply exponent_len_le).
  pose proof (bigint_len_le (skipn (i + f + e) cs)) as Hb.
  rewrite length_skipn in Hb.
  destruct (Nat.eqb f 0 && Nat.eqb e 0); lia.
Qed.

Lemma literal_len_le cs : literal_len cs <= length cs.
Proof.
  unfold literal_len.
  destruct cs as [|z [|p [|d r]]]; try apply decimal_len_le.
  split_ifs; [|apply decimal_len_le].
  set (k := 2 + digits_sep _ false _).
  assert (Hk : k <= length (z :: p :: d :: r)).
  { unfold k; simpl skipn; pose proof (digits_sep_le (radix_of p) false (d :: r)).
    simpl in *; lia. }
  pose proof (bigint_len_le (skipn k (z :: p :: d :: r))) as Hb.
  rewrite length_skipn in Hb; lia.
Qed.

Lemma decimal_len_ge cs :
  digits_sep 10 false cs + frac_len (skipn (digits_sep 10 false cs) cs) <= decimal_len cs.
Proof. unfold decimal_len; lia. Qed.

Lemma literal_len_pos c r :
  is_dec c || ((c =? c_dot)%Z && next_is is_dec r) = true -> 1 <= literal_len (c :: r).
Proof.
  intros H.
  assert (Hd : 1 <= decimal_len (c :: r)).
  { pose proof (decimal_len_ge (c :: r)) as G.
    unfold is_dec in H; simpl in G.
    destruct (is_digit 10 c) eqn:Hc.
    - simpl in G; lia.
    - simpl in H.
      assert (Hdot : c = c_dot) by (apply andb_prop in H; destruct H; lia).
      subst c; simpl in G; lia. }
  unfold literal_len; destruct r as [|p [|d r']]; auto.
  split_ifs; [|assumption]. lia.
Qed.

Lemma scan_number_bounds c r :
  is_dec c || ((c =? c_dot)%Z && next_is is_dec r) = true ->
  1 <= snd (scan_number (c :: r)) <= length (c :: r).
Proof.
  intros H; unfold scan_number.
  pose proof (literal_len_pos c r H) as Hpos.
  pose proof (literal_len_le (c :: r)) as Hle.
  set (n := literal_len (c :: r)) in *.
  pose proof (ident_run_le 0 (skipn n (c :: r))) as Hi.
  rewrite length_skipn in Hi.
  destruct (skipn n (c :: r)) as [|d t]; cbn [snd length] in *; [lia|].
  destruct (id_continue d); cbn [snd]; [lia|].
  destruct (unicode_escape (d :: t)) as [[k v]|];
    [destruct (id_continue v)|]; cbn [snd]; lia.
Qed.

Lemma braced_hex_le n v cs k w : braced_hex n v cs = Some (k, w) -> k <= n + length cs.
Proof.
  revert n v; induction cs as [|c r IH]; intros n v H; simpl in H; [discriminate|].
  destruct (is_hex c).
  - apply IH in H; simpl; lia.
  - destruct ((c =? c_rcurly)%Z && Nat.ltb 0 n && (v <=? 1114111)%Z);
      inversion H; subst; simpl; lia.
Qed.

Lemma unicode_escape_bounds cs k v :
  unicode_escape cs = Some (k, v) -> 1 <= k <= length cs.
Proof.
  unfold unicode_escape; intros H.
  destruct cs as [|b [|u r]]; try discriminate.
  destruct ((b =? c_backslash)%Z && (u =? 117)%Z); [|discriminate].
  destruct r as [|l r']; [discriminate|].
  destruct ((l =? c_lcurly)%Z).
  - destruct (braced_hex 0 0 r') as [[n w]|] eqn:E; [|discriminate].
    apply braced_hex_le in E; inversion H; subst; simpl; lia.
  - destruct r' as [|h2 [|h3 [|h4 t]]]; try discriminate.
    destruct (is_hex l && is_hex h2 && is_hex h3 && is_hex h4);
      inversion H; subst; simpl; lia.
Qed.

Lemma scan_ident_or_escape_bounds c r :
  1 <= snd (scan_ident_or_escape c r) <= length (c :: r).
Proof.
  unfold scan_ident_or_escape.
  pose proof (ident_run_le 0 (c :: r)) as Hle.
  destruct (id_start c) eqn:Hs.
  - unfold scan_ident; cbn [snd]; split; [|exact Hle].
    cbn [ident_run]. unfold id_continue at 1; rewrite Hs; cbn [orb]; lia.
  - destruct (unicode_escape (c :: r)) as [[k v]|] eqn:E.
    + pose proof (unicode_escape_bounds _ _ _ E).
      destruct (id_start v) eqn:Hv; [|cbn [snd]; lia].
      unfold scan_ident; cbn [snd]; split; [|exact Hle].
      cbn [ident_run]. destruct (id_continue c); [lia|].
      rewrite E. unfold id_continue; rewrite Hv; cbn [orb]; lia.
    + cbn [snd length]; lia.
Qed.

Lemma is_prefix_le p s : is_prefix p s = true -> length p <= length s.
Proof.
  revert s; induction p as [|x p IH]; intros [|y s] H; simpl in *; try lia; try discriminate.
  apply andb_prop in H; destruct H as [_ H]; apply IH in H; lia.
Qed.

Lemma punctuators_nonempty :
  forallb (fun p => Nat.ltb 0 (length (str (fst p)))) punctuators = true.
Proof. vm_compute. reflexivity. Qed.

Lemma punct_match_bounds cs k n :
  punct_match cs = Some (k, n) -> 1 <= n <= length cs.
Proof.
  unfold punct_match; intros H.
  destruct (find _ punctuators) as [[s k']|] eqn:E; [|discriminate].
  inversion H; subst; clear H.
  apply find_some in E; destruct E as [Hin Hp].
  pose proof punctuators_nonempty as Hall.
  rewrite forallb_forall in Hall; apply Hall in Hin; simpl in Hin, Hp.
  apply Nat.ltb_lt in Hin; apply is_prefix_le in Hp; lia.
Qed.

Lemma scan_slash_bounds p r : 1 <= snd (scan_slash p r) <= S (length r).
Proof.
  unfold scan_slash, regex_token.
  pose proof (scan_regex_le RNorm r) as Hr.
  destruct (scan_regex RNorm r) as [b n] eqn:E; simpl in Hr.
  destruct r as [|d r']; simpl in *.
  - destruct (expr_end p); simpl; lia.
  - pose proof (take_while_le (fun c => negb (is_line_term c)) r').
    pose proof (scan_block_le false r').
    split_ifs; simpl; lia.
Qed.

Lemma code_token_bounds p cx c r :
  1 <= snd (fst (code_token p cx c r)) <= S (length r).
Proof.
  unfold code_token.
  destruct (is_ws c); [simpl; pose proof (take_while_le is_ws r); lia|].
  destruct (c =? c_slash)%Z; [apply scan_slash_bounds|].
  destruct (c =? c_backtick)%Z; [simpl; lia|].
  destruct ((c =? c_squote)%Z || (c =? c_dquote)%Z).
  { simpl; pose proof (scan_str_le c SNorm true r); lia. }
  destruct (is_dec c || ((c =? c_dot)%Z && next_is is_dec r)) eqn:Hn.
  { apply scan_number_bounds in Hn; simpl in *; lia. }
  destruct (c =? c_lcurly)%Z; [simpl; lia|].
  destruct (c =? c_rcurly)%Z; [simpl; lia|].
  destruct (id_start c || (c =? c_backslash)%Z).
  { pose proof (scan_ident_or_escape_bounds c r); simpl in *; lia. }
  destruct (punct_match (c :: r)) as [[k n]|] eqn:E.
  - apply punct_match_bounds in E; simpl in *; lia.
  - simpl; lia.
Qed.

Lemma chunk_token_bounds outer cx c r :
  1 <= snd (fst (chunk_token outer cx c r)) <= S (length r).
Proof.
  unfold chunk_token.
  destruct (c =? c_backtick)%Z eqn:E1; [simpl; lia|].
  destruct ((c =? c_dollar)%Z && next_is (Z.eqb c_lcurly) r) eqn:E2.
  - destruct r; [simpl in E2; rewrite andb_false_r in E2; discriminate|simpl; lia].
  - simpl. rewrite E1, E2. pose proof (scan_chunk_le (c =? c_backslash)%Z r); lia.
Qed.

Lemma next_token_bounds st c r :
  1 <= snd (fst (next_token st c r)) <= S (length r).
Proof.
  unfold next_token.
  destruct (ctx st) as [|[|d] outer].
  - pose proof (code_token_bounds (prev st) [] c r).
    destruct (code_token _ _ c r) as [[k n] cx]; simpl in *; lia.
  - pose proof (chunk_token_bounds outer (TTemplate :: outer) c r).
    destruct (chunk_token _ _ c r) as [[k n] cx]; simpl in *; lia.
  - pose proof (code_token_bounds (prev st) (TInterp d :: outer) c r).
    destruct (code_token _ _ c r) as [[k n] cx]; simpl in *; lia.
Qed.

End Bounds.

(** ** Losslessness *)

(** [lossless ts cs]: the tokens [ts] cut [cs] into consecutive non-empty
    pieces of whole characters, each token's length being the byte length
    of its piece, and the sequence ends with the end-of-file token. *)
Inductive lossless : list Token -> list Z -> Prop :=
| lossless_eof : lossless [mkToken EOF 0] []
| lossless_tok k seg rest ts :
    seg <> [] -> lossless ts rest ->
    lossless (mkToken k (byte_len seg) :: ts) (seg ++ rest).

(** The reconstruction loop of the [losslessness] test: append the source
    slice [idx..idx + token.len] of every token, in order. *)
Fixpoint reconstruct (bs : list Z) (ts : list Token) : list Z :=
  match ts with
  | [] => []
  | t :: ts' => firstn (len t) bs ++ reconstruct (skipn (len t) bs) ts'
  end.

Fixpoint total_len (ts : list Token) : nat :=
  match ts with
  | [] => 0%nat
  | t :: ts' => (len t + total_len ts')%nat
  end.

Section Lossless.
Local Open Scope nat_scope.

Lemma lossless_cut k cs n ts :
  1 <= n -> lossless ts (skipn n cs) -> n <= length cs ->
  lossless (mkToken k (byte_len (firstn n cs)) :: ts) cs.
Proof.
  intros Hn Hts Hle.
  set (a := firstn n cs).
  rewrite <- (firstn_skipn n cs).
  apply lossless_tok; [|exact Hts].
  unfold a; destruct n as [|n]; [lia|].
  destruct cs; simpl in *; [lia|discriminate].
Qed.

Lemma lex_go_lossless fuel st cs :
  length cs <= fuel -> lossless (lex_go fuel st cs) cs.
Proof.
  revert st cs; induction fuel as [|fuel IH]; intros st [|c r] H;
    cbn [lex_go length] in *; try lia; try constructor.
  pose proof (next_token_bounds st c r) as B.
  destruct (next_token st c r) as [[k n] st']; simpl in B.
  apply lossless_cut; [lia| |simpl; lia].
  apply IH. rewrite length_skipn; cbn [length] in *; lia.
Qed.

Lemma len_utf8_pos c : 1 <= len_utf8 c.
Proof. unfold len_utf8; split_ifs; lia. Qed.

Lemma length_utf8_encode c : length (utf8_encode c) = len_utf8 c.
Proof. unfold utf8_encode, len_utf8; split_ifs; reflexivity. Qed.

Lemma length_as_bytes s : length (as_bytes s) = byte_len s.
Proof.
  induction s as [|c s IH]; simpl; [reflexivity|].
  rewrite length_app, length_utf8_encode; fold (as_bytes s); lia.
Qed.

Lemma as_bytes_app a b : as_bytes (a ++ b) = as_bytes a ++ as_bytes b.
Proof. apply flat_map_app. Qed.

Lemma byte_len_app a b : byte_len (a ++ b) = byte_len a + byte_len b.
Proof. induction a; simpl; lia. Qed.

Lemma byte_len_pos seg : seg <> [] -> 0 < byte_len seg.
Proof. destruct seg as [|c r]; [congruence|]; simpl; pose proof (len_utf8_pos c); lia. Qed.

Lemma lossless_reconstruct ts cs :
  lossless ts cs -> reconstruct (as_bytes cs) ts = as_bytes cs.
Proof.
  induction 1 as [|k seg rest ts Hseg Hts IH]; [reflexivity|].
  cbn [reconstruct len].
  rewrite as_bytes_app, <- length_as_bytes.
  rewrite firstn_app, firstn_all, Nat.sub_diag, firstn_O, app_nil_r.
  rewrite skipn_app, skipn_all, Nat.sub_diag, skipn_O; simpl.
  rewrite IH; reflexivity.
Qed.

Lemma lossless_total_len ts cs : lossless ts cs -> total_len ts = byte_len cs.
Proof.
  induction 1; simpl; [reflexivity|]. rewrite byte_len_app; lia.
Qed.

Lemma lossless_shape ts cs :
  lossless ts cs ->
  exists body, ts = body ++ [mkToken EOF 0]
          /\ Forall (fun t => 0 < len t) body /\ length body <= length cs.
Proof.
  induction 1 as [|k seg rest ts Hseg Hts IH].
  - exists []; repeat split; simpl; auto.
  - destruct IH as (body & -> & Hpos & Hlen).
    exists (mkToken k (byte_len seg) :: body); repeat split.
    + constructor; [apply byte_len_pos|]; assumption.
    + rewrite length_app; simpl.
      destruct seg; [congruence|]; simpl; lia.
Qed.

End Lossless.

(** ** Properties of the token stream *)

Lemma lex_is_lossless s : lossless (lex s) s.
Proof. unfold lex, tokens, from_str; simpl. apply lex_go_lossless; lia. Qed.

(** *** Greedy punctuator matching *)

(** Every element of the list weighs no more than the ones before it. *)
Fixpoint descending {A} (w : A -> nat) (l : list A) : bool :=
  match l with
  | [] => true
  | a :: t => forallb (fun b => Nat.leb (w b) (w a)) t && descending w t
  end.

Lemma find_descending {A} (w : A -> nat) (f : A -> bool) l x p :
  descending w l = true -> find f l = Some x -> In p l -> f p = true ->
  (w p <= w x)%nat.
Proof.
  induction l as [|a t IH]; intros Hd Hf Hin Hp; [destruct Hin|].
  simpl in Hd; apply andb_prop in Hd; destruct Hd as [Hall Hd].
  simpl in Hf; destruct (f a) eqn:Ha.
  - inversion Hf; subst x. destruct Hin as [->|Hin]; [lia|].
    rewrite forallb_forall in Hall; apply Hall, Nat.leb_le in Hin; exact Hin.
  - destruct Hin as [->|Hin]; [congruence|]. eapply IH; eauto.
Qed.

Lemma punctuators_descending :
  descending (fun p => length (str (fst p))) punctuators = true.
Proof. vm_compute. reflexivity. Qed.

Lemma punct_match_longest cs k n p :
  punct_match cs = Some (k, n) -> In p punctuators ->
  is_prefix (str (fst p)) cs = true -> (length (str (fst p)) <= n)%nat.
Proof.
  unfold punct_match; intros H Hin Hp.
  destruct (find _ punctuators) as [[s k']|] eqn:E; [|discriminate].
  inversion H; subst; clear H.
  exact (find_descending (fun p => length (str (fst p))) _ _ _ _
           punctuators_descending E Hin Hp).
Qed.

(** *** String literals *)

Definition dq : list Z := [c_dquote].
Definition bs : list Z := [c_backslash].

Lemma scan_str_invalid_kind q m cs : fst (scan_str q m false cs) = ERROR_TOKEN.
Proof.
  revert m; induction cs as [|c r IH]; intros m; [reflexivity|].
  destruct m as [| |[|k]| |n w]; cbn [scan_str]; split_ifs; cbn [fst incr]; auto.
Qed.

Lemma scan_str_len_indep q m v cs :
  snd (scan_str q m false cs) = snd (scan_str q m v cs).
Proof.
  revert m; induction cs as [|c r IH]; intros m; [reflexivity|].
  destruct m as [| |[|k]| |n w]; cbn [scan_str]; split_ifs; cbn [snd incr];
    try rewrite IH; reflexivity.
Qed.

(** Spec-side reading of "closing quote or end of line": a quote or a
    line terminator that is not the character right after a backslash. *)
Fixpoint str_ends (q : Z) (esc : bool) (cs : list Z) : bool :=
  match cs with
  | [] => false
  | c :: r =>
    if esc then str_ends q false r
    else if (c =? q) || is_line_term c then true
    else str_ends q (c =? c_backslash) r
  end.

Definition after_backslash (m : str_mode) : bool :=
  match m with SEsc => true | _ => false end.

Lemma hex_not_backslash c : is_hex c = true -> (c =? c_backslash) = false.
Proof.
  unfold is_hex, is_digit, c_backslash; simpl; intros H.
  apply Z.eqb_neq; intros ->; discriminate H.
Qed.

Lemma hex_not_line_term c : is_hex c = true -> is_line_term c = false.
Proof.
  unfold is_hex, is_digit, is_line_term, mem; simpl; intros H.
  destruct (c =? 10) eqn:E1; [apply Z.eqb_eq in E1; subst; discriminate H|].
  destruct (c =? 13) eqn:E2; [apply Z.eqb_eq in E2; subst; discriminate H|].
  destruct (c =? 8232) eqn:E3; [apply Z.eqb_eq in E3; subst; discriminate H|].
  destruct (c =? 8233) eqn:E4; [apply Z.eqb_eq in E4; subst; discriminate H|].
  reflexivity.
Qed.

Lemma scan_str_unterminated q m v cs :
  str_ends q (after_backslash m) cs = false ->
  scan_str q m v cs = (ERROR_TOKEN, length cs).
Proof.
  revert m v; induction cs as [|c r IH]; intros m v H; [reflexivity|].
  assert (Hnorm : forall v' : bool, (c =? q) = false -> is_line_term c = false ->
            str_ends q (c =? c_backslash) r = false ->
            (if c =? q then ((if v' then STRING else ERROR_TOKEN), 1%nat)
             else if is_line_term c then (ERROR_TOKEN, 0%nat)
             else if c =? c_backslash then incr (scan_str q SEsc v' r)
             else incr (scan_str q SNorm v' r)) = (ERROR_TOKEN, length (c :: r))).
  { intros v' Hq Hl H'; rewrite Hq, Hl.
    destruct (c =? c_backslash) eqn:Hb; rewrite IH; auto. }
  destruct m as [| |[|k]| |n w]; cbn [scan_str]; cbn [str_ends after_backslash] in H;
    try (destruct (c =? q) eqn:Hq; [discriminate|];
         destruct (is_line_term c) eqn:Hlt; [discriminate|]; cbn [orb] in H).
  - apply Hnorm; auto.
  - destruct (c =? 120); [|destruct (c =? 117)]; rewrite IH; auto.
  - apply Hnorm; auto.
  - destruct (is_hex c) eqn:Hx; [|apply (Hnorm false); auto].
    rewrite hex_not_backslash in H by exact Hx.
    rewrite IH; auto.
  - destruct (c =? c_lcurly) eqn:Hl.
    + apply Z.eqb_eq in Hl; subst c; rewrite IH; auto.
    + destruct (is_hex c) eqn:Hx; [|apply (Hnorm false); auto].
      rewrite hex_not_backslash in H by exact Hx; rewrite IH; auto.
  - destruct (is_hex c) eqn:Hx.
    + rewrite hex_not_backslash in H by exact Hx; rewrite IH; auto.
    + destruct ((c =? c_rcurly) && Nat.ltb 0 n && (w <=? 1114111)) eqn:Hr;
        [|apply (Hnorm false); auto].
      apply andb_prop in Hr; destruct Hr as [Hr _];
        apply andb_prop in Hr; destruct Hr as [Hr _].
      apply Z.eqb_eq in Hr; subst c; rewrite IH; auto.
Qed.

Lemma scan_str_hex0 q v cs : scan_str q (SHex 0) v cs = scan_str q SNorm v cs.
Proof. destruct cs; reflexivity. Qed.

Lemma scan_str_u4 q v h1 h2 h3 h4 rest :
  (q = c_squote \/ q = c_dquote) ->
  is_hex h1 && is_hex h2 && is_hex h3 && is_hex h4 = true ->
  scan_str q SNorm v (c_backslash :: 117 :: h1 :: h2 :: h3 :: h4 :: rest)
  = (fst (scan_str q SNorm v rest), (6 + snd (scan_str q SNorm v rest))%nat).
Proof.
  intros Hq Hh.
  apply andb_prop in Hh; destruct Hh as [Hh H4].
  apply andb_prop in Hh; destruct Hh as [Hh H3].
  apply andb_prop in Hh; destruct Hh as [H1 H2].
  assert (Hl : (h1 =? c_lcurly) = false).
  { apply Z.eqb_neq; intros ->; discriminate H1. }
  assert (Hb : (c_backslash =? q) = false)
    by (destruct Hq as [-> | ->]; reflexivity).
  cbn [scan_str]. rewrite Hb, Hl, H1, H2, H3, H4.
  rewrite Z.eqb_refl. cbn -[scan_str]. rewrite scan_str_hex0. reflexivity.
Qed.

(** *** Numeric literals followed by a unicode escape *)

Definition lex_from (st : LexerState) (cs : list Z) : list Token :=
  lex_go (length cs) st cs.

Lemma lex_go_fuel f1 f2 st cs :
  (length cs <= f1)%nat -> (length cs <= f2)%nat -> lex_go f1 st cs = lex_go f2 st cs.
Proof.
  revert f2 st cs; induction f1 as [|f1 IH]; intros f2 st [|c r] H1 H2;
    cbn [length] in *; try lia; destruct f2 as [|f2]; try lia; try reflexivity.
  cbn [lex_go].
  pose proof (next_token_bounds st c r) as B.
  destruct (next_token st c r) as [[k n] st']; simpl in B.
  f_equal; apply IH; rewrite length_skipn; cbn [length]; lia.
Qed.

Lemma lex_from_step st c r k n st' :
  next_token st c r = (k, n, st') ->
  lex_from st (c :: r)
  = mkToken k (byte_len (firstn n (c :: r))) :: lex_from st' (skipn n (c :: r)).
Proof.
  intros E; unfold lex_from.
  pose proof (next_token_bounds st c r) as B; rewrite E in B; simpl in B.
  cbn [length lex_go]; rewrite E; f_equal.
  apply lex_go_fuel; rewrite length_skipn; cbn [length]; lia.
Qed.

Lemma lex_lex_from s : lex s = lex_from init_state s.
Proof. reflexivity. Qed.

Lemma next_token_code st c r :
  in_code st = true ->
  next_token st c r
  = let '(k, n, cx) := code_token (prev st) (ctx st) c r in
    (k, n, mkState (if is_trivia k then prev st else Some k) cx).
Proof.
  unfold in_code, next_token; destruct (ctx st) as [|[|d] cx]; intros H;
    [reflexivity | discriminate | reflexivity].
Qed.

Lemma id_start_continue c : id_start c = true -> id_continue c = true.
Proof. intros H; unfold id_continue; rewrite H; reflexivity. Qed.

Ltac z_neq :=
  repeat match goal with
         | |- context [?x =? ?y] => rewrite (proj2 (Z.eqb_neq x y)) by lia
         end.

Lemma is_dec_range d : is_dec d = true -> 48 <= d <= 57.
Proof.
  unfold is_dec, is_digit; simpl; intros H.
  apply andb_prop in H; destruct H as [H1 H2].
  apply Z.leb_le in H1; apply Z.ltb_lt in H2; lia.
Qed.

Lemma is_hex_range h : is_hex h = true -> 48 <= h <= 102.
Proof.
  unfold is_hex, is_digit; simpl; intros H.
  repeat (apply orb_prop in H; destruct H as [H|H]);
    apply andb_prop in H; destruct H as [H1 H2];
    apply Z.leb_le in H1; apply Z.leb_le in H2; lia.
Qed.

Lemma code_token_digit p cx d r :
  is_dec d = true ->
  code_token p cx d r = (fst (scan_number (d :: r)), snd (scan_number (d :: r)), cx).
Proof.
  intros Hd; pose proof (is_dec_range d Hd) as R.
  unfold code_token.
  assert (Hws : is_ws d = false).
  { unfold is_ws, mem, irregular_ws; cbn [existsb]; z_neq; reflexivity. }
  rewrite Hws, Hd.
  unfold c_slash, c_backtick, c_squote, c_dquote; z_neq; reflexivity.
Qed.

Lemma scan_number_kind cs : fst (scan_number cs) = NUMBER \/ fst (scan_number cs) = ERROR_TOKEN.
Proof.
  unfold scan_number.
  destruct (skipn _ cs) as [|c t]; [auto|].
  destruct (id_continue c); [auto|].
  destruct (unicode_escape (c :: t)) as [[k v]|]; [destruct (id_continue v)|]; auto.
Qed.

Lemma next_token_digit st d r :
  in_code st = true -> is_dec d = true ->
  next_token st d r
  = (fst (scan_number (d :: r)), snd (scan_number (d :: r)),
     mkState (Some (fst (scan_number (d :: r)))) (ctx st)).
Proof.
  intros Hc Hd; rewrite next_token_code by exact Hc; rewrite code_token_digit by exact Hd.
  destruct (scan_number_kind (d :: r)) as [E|E]; rewrite E; reflexivity.
Qed.

Definition esc4 (h1 h2 h3 h4 : Z) : list Z := [c_backslash; 117; h1; h2; h3; h4].

Definition hex4 (h1 h2 h3 h4 : Z) : Z :=
  ((hex_val h1 * 16 + hex_val h2) * 16 + hex_val h3) * 16 + hex_val h4.

Lemma unicode_escape_esc4 h1 h2 h3 h4 t :
  is_hex h1 = true -> is_hex h2 = true -> is_hex h3 = true -> is_hex h4 = true ->
  unicode_escape (esc4 h1 h2 h3 h4 ++ t) = Some (6%nat, hex4 h1 h2 h3 h4).
Proof.
  intros H1 H2 H3 H4; pose proof (is_hex_range h1 H1).
  unfold esc4, unicode_escape; cbn -[is_hex hex_val].
  unfold c_lcurly; z_neq; rewrite H1, H2, H3, H4; reflexivity.
Qed.

Lemma radix_of_dec p : is_dec p = true -> radix_of p = 0.
Proof.
  intros H; pose proof (is_dec_range p H); unfold radix_of; z_neq; reflexivity.
Qed.

Lemma digits_sep_dec ds c r b :
  forallb is_dec ds = true -> is_dec c = false -> c <> 95 ->
  digits_sep 10 b (ds ++ c :: r) = length ds.
Proof.
  intros Hds Hc H95; revert b; induction ds as [|d ds IH]; intros b; simpl in *.
  - unfold is_dec in Hc; rewrite Hc.
    rewrite (proj2 (Z.eqb_neq c 95) H95), andb_false_r; reflexivity.
  - apply andb_prop in Hds; destruct Hds as [Hd Hds].
    unfold is_dec in Hd; rewrite Hd, IH by exact Hds; reflexivity.
Qed.

Lemma literal_len_dec_backslash ds r :
  ds <> [] -> forallb is_dec ds = true ->
  literal_len (ds ++ c_backslash :: r) = length ds.
Proof.
  intros Hne Hds.
  assert (Hdec : decimal_len (ds ++ c_backslash :: r) = length ds).
  { unfold decimal_len; cbv zeta.
    rewrite digits_sep_dec by (auto; discriminate).
    assert (Hsk : skipn (length ds) (ds ++ c_backslash :: r) = c_backslash :: r)
      by (rewrite skipn_app, skipn_all, Nat.sub_diag; reflexivity).
    rewrite Hsk; change (frac_len (c_backslash :: r)) with 0%nat.
    rewrite Nat.add_0_r, Hsk; change (exponent_len (c_backslash :: r)) with 0%nat.
    rewrite Nat.add_0_r; cbn [Nat.eqb andb]; rewrite Hsk; apply Nat.add_0_r. }
  unfold literal_len.
  destruct ds as [|z [|p ds']]; [congruence| |].
  - destruct r as [|d t]; cbn [app]; [exact Hdec|].
    change (radix_of c_backslash) with 0; cbn [Z.eqb negb]; rewrite andb_false_r.
    exact Hdec.
  - simpl in Hds; apply andb_prop in Hds; destruct Hds as [_ Hds];
      apply andb_prop in Hds; destruct Hds as [Hp _].
    cbn [app]. destruct (ds' ++ c_backslash :: r) as [|d t] eqn:E;
      [destruct ds'; discriminate|].
    rewrite radix_of_dec by exact Hp; cbn [Z.eqb negb]; rewrite andb_false_r.
    rewrite <- E; exact Hdec.
Qed.

Lemma ident_run_ids ids r :
  forallb id_continue ids = true -> ident_run 0 (ids ++ r) = (length ids + ident_run 0 r)%nat.
Proof.
  induction ids as [|c ids IH]; intros H; simpl in *; [reflexivity|].
  apply andb_prop in H; destruct H as [Hc H]; rewrite Hc, IH by exact H; reflexivity.
Qed.

Lemma ident_run_esc4 h1 h2 h3 h4 r :
  is_hex h1 = true -> is_hex h2 = true -> is_hex h3 = true -> is_hex h4 = true ->
  id_continue (hex4 h1 h2 h3 h4) = true ->
  ident_run 0 (esc4 h1 h2 h3 h4 ++ r) = (6 + ident_run 0 r)%nat.
Proof.
  intros H1 H2 H3 H4 Hv.
  change (ident_run 0 (esc4 h1 h2 h3 h4 ++ r))
    with (if id_continue c_backslash then S (ident_run 0 (117 :: h1 :: h2 :: h3 :: h4 :: r))
          else match unicode_escape (esc4 h1 h2 h3 h4 ++ r) with
               | Some (k, v) => if id_continue v then S (ident_run (k - 1) (117 :: h1 :: h2 :: h3 :: h4 :: r)) else 0%nat
               | None => 0%nat
               end).
  rewrite unicode_escape_esc4, Hv by assumption; reflexivity.
Qed.

Lemma ident_run_stop r :
  next_is id_continue r = false ->
  match unicode_escape r with Some (_, w) => id_continue w = false | None => True end ->
  ident_run 0 r = 0%nat.
Proof.
  destruct r as [|c t]; intros H1 H2; [reflexivity|].
  cbn [next_is] in H1. cbn [ident_run]. rewrite H1.
  destruct (unicode_escape (c :: t)) as [[k w]|]; [rewrite H2|]; reflexivity.
Qed.

Lemma id_continue_backslash : id_continue c_backslash = false.
Proof. reflexivity. Qed.

Lemma scan_number_esc4_merge ds h1 h2 h3 h4 ids rest :
  ds <> [] -> forallb is_dec ds = true ->
  is_hex h1 = true -> is_hex h2 = true -> is_hex h3 = true -> is_hex h4 = true ->
  id_continue (hex4 h1 h2 h3 h4) = true ->
  forallb id_continue ids = true ->
  next_is id_continue rest = false ->
  match unicode_escape rest with Some (_, w) => id_continue w = false | None => True end ->
  scan_number (ds ++ esc4 h1 h2 h3 h4 ++ ids ++ rest)
  = (ERROR_TOKEN, length (ds ++ esc4 h1 h2 h3 h4 ++ ids)).
Proof.
  intros Hne Hds H1 H2 H3 H4 Hv Hids Hr1 Hr2.
  unfold scan_number.
  change (esc4 h1 h2 h3 h4 ++ ids ++ rest)
    with (c_backslash :: (117 :: h1 :: h2 :: h3 :: h4 :: ids ++ rest)).
  rewrite literal_len_dec_backslash by assumption.
  rewrite skipn_app, skipn_all, Nat.sub_diag; cbn [app skipn].
  rewrite id_continue_backslash.
  change (c_backslash :: 117 :: h1 :: h2 :: h3 :: h4 :: ids ++ rest)
    with (esc4 h1 h2 h3 h4 ++ ids ++ rest).
  rewrite unicode_escape_esc4, Hv, ident_run_esc4, ident_run_ids, ident_run_stop
    by assumption.
  rewrite !length_app, Nat.add_0_r; reflexivity.
Qed.

Lemma scan_number_esc4_close ds h1 h2 h3 h4 rest :
  ds <> [] -> forallb is_dec ds = true ->
  is_hex h1 = true -> is_hex h2 = true -> is_hex h3 = true -> is_hex h4 = true ->
  id_continue (hex4 h1 h2 h3 h4) = false ->
  scan_number (ds ++ esc4 h1 h2 h3 h4 ++ rest) = (NUMBER, length ds).
Proof.
  intros Hne Hds H1 H2 H3 H4 Hv.
  unfold scan_number.
  change (esc4 h1 h2 h3 h4 ++ rest)
    with (c_backslash :: (117 :: h1 :: h2 :: h3 :: h4 :: rest)).
  rewrite literal_len_dec_backslash by assumption.
  rewrite skipn_app, skipn_all, Nat.sub_diag; cbn [app skipn].
  rewrite id_continue_backslash.
  change (c_backslash :: 117 :: h1 :: h2 :: h3 :: h4 :: rest)
    with (esc4 h1 h2 h3 h4 ++ rest).
  rewrite unicode_escape_esc4, Hv by assumption; reflexivity.
Qed.

Lemma firstn_length_app (l l' : list Z) : firstn (length l) (l ++ l') = l.
Proof. induction l as [|x l IH]; simpl; [reflexivity|now rewrite IH]. Qed.

Lemma skipn_length_app (l l' : list Z) : skipn (length l) (l ++ l') = l'.
Proof. induction l as [|x l IH]; simpl; [reflexivity|exact IH]. Qed.

Lemma lex_from_step_split st c r k n st' pre post :
  next_token st c r = (k, n, st') -> c :: r = pre ++ post -> length pre = n ->
  lex_from st (c :: r) = mkToken k (byte_len pre) :: lex_from st' post.
Proof.
  intros E Hs Hl; rewrite (lex_from_step _ _ _ _ _ _ E), Hs, <- Hl.
  rewrite firstn_length_app, skipn_length_app; reflexivity.
Qed.

Lemma next_token_esc4_error st h1 h2 h3 h4 rest :
  in_code st = true ->
  is_hex h1 = true -> is_hex h2 = true -> is_hex h3 = true -> is_hex h4 = true ->
  id_continue (hex4 h1 h2 h3 h4) = false ->
  next_token st c_backslash (117 :: h1 :: h2 :: h3 :: h4 :: rest)
  = (ERROR_TOKEN, 6%nat, mkState (Some ERROR_TOKEN) (ctx st)).
Proof.
  intros Hc H1 H2 H3 H4 Hv.
  assert (Hs : scan_ident_or_escape c_backslash (117 :: h1 :: h2 :: h3 :: h4 :: rest)
               = (ERROR_TOKEN, 6%nat)).
  { unfold scan_ident_or_escape. change (id_start c_backslash) with false. cbv iota beta.
    change (c_backslash :: 117 :: h1 :: h2 :: h3 :: h4 :: rest) with (esc4 h1 h2 h3 h4 ++ rest).
    rewrite unicode_escape_esc4 by assumption.
    destruct (id_start (hex4 h1 h2 h3 h4)) eqn:Hs; [|reflexivity].
    rewrite (id_start_continue _ Hs) in Hv; discriminate. }
  rewrite next_token_code by exact Hc.
  unfold code_token.
  cbn -[scan_ident_or_escape punct_match scan_number scan_slash scan_str take_while].
  rewrite Hs; reflexivity.
Qed.

Lemma lex_number_esc4_merge st ds h1 h2 h3 h4 ids rest :
  in_code st = true -> ds <> [] -> forallb is_dec ds = true ->
  is_hex h1 = true -> is_hex h2 = true -> is_hex h3 = true -> is_hex h4 = true ->
  id_continue (hex4 h1 h2 h3 h4) = true ->
  forallb id_continue ids = true ->
  next_is id_continue rest = false ->
  match unicode_escape rest with Some (_, w) => id_continue w = false | None => True end ->
  lex_from st (ds ++ esc4 h1 h2 h3 h4 ++ ids ++ rest)
  = mkToken ERROR_TOKEN (byte_len (ds ++ esc4 h1 h2 h3 h4 ++ ids))
    :: lex_from (mkState (Some ERROR_TOKEN) (ctx st)) rest.
Proof.
  intros Hc Hne Hds H1 H2 H3 H4 Hv Hids Hr1 Hr2.
  pose proof (scan_number_esc4_merge ds h1 h2 h3 h4 ids rest Hne Hds H1 H2 H3 H4 Hv Hids Hr1 Hr2)
    as Hn.
  destruct ds as [|d ds']; [congruence|].
  assert (Hd : is_dec d = true) by (simpl in Hds; apply andb_prop in Hds; tauto).
  cbn [app] in Hn |- *.
  rewrite (lex_from_step_split _ _ _ _ _ _ (d :: ds' ++ esc4 h1 h2 h3 h4 ++ ids) rest
             (next_token_digit st d _ Hc Hd)).
  - rewrite Hn; reflexivity.
  - cbn [app]; rewrite <- !app_assoc; reflexivity.
  - rewrite Hn; reflexivity.
Qed.

Lemma lex_number_esc4_close st ds h1 h2 h3 h4 rest :
  in_code st = true -> ds <> [] -> forallb is_dec ds = true ->
  is_hex h1 = true -> is_hex h2 = true -> is_hex h3 = true -> is_hex h4 = true ->
  id_continue (hex4 h1 h2 h3 h4) = false ->
  lex_from st (ds ++ esc4 h1 h2 h3 h4 ++ rest)
  = mkToken NUMBER (byte_len ds) :: mkToken ERROR_TOKEN 6
    :: lex_from (mkState (Some ERROR_TOKEN) (ctx st)) rest.
Proof.
  intros Hc Hne Hds H1 H2 H3 H4 Hv.
  pose proof (scan_number_esc4_close ds h1 h2 h3 h4 rest Hne Hds H1 H2 H3 H4 Hv) as Hn.
  destruct ds as [|d ds']; [congruence|].
  assert (Hd : is_dec d = true) by (simpl in Hds; apply andb_prop in Hds; tauto).
  cbn [app] in Hn |- *.
  rewrite (lex_from_step_split _ _ _ _ _ _ (d :: ds') (esc4 h1 h2 h3 h4 ++ rest)
             (next_token_digit st d _ Hc Hd)) by (rewrite ?Hn; reflexivity).
  rewrite Hn; cbn [fst].
  unfold esc4; cbn [app].
  rewrite (lex_from_step _ _ _ _ _ _ (next_token_esc4_error (mkState (Some NUMBER) (ctx st))
                                        h1 h2 h3 h4 rest Hc H1 H2 H3 H4 Hv)).
  cbn [firstn skipn]. f_equal. f_equal.
  unfold byte_len; cbn [map].
  pose proof (is_hex_range h1 H1); pose proof (is_hex_range h2 H2);
    pose proof (is_hex_range h3 H3); pose proof (is_hex_range h4 H4).
  unfold len_utf8; rewrite !(proj2 (Z.ltb_lt _ 128)) by (unfold c_backslash; lia).
  reflexivity.
Qed.

(** *** The shebang line *)

Definition shebang_ex : list Z := str "#! /bin/node " ++ [10; 10].

(** The offset the words "just past the first line terminator
    (inclusive)" name, for a buffer starting with [#!]: the shebang line
    with its terminator. *)
Definition past_first_terminator (s : list Z) : nat :=
  byte_len (firstn (S (take_while (fun c => negb (is_line_term c)) s)) s).

Lemma take_while_app p l r :
  forallb p l = true -> next_is p r = false -> take_while p (l ++ r) = length l.
Proof.
  intros Hl Hr; induction l as [|c l IH]; simpl in *.
  - destruct r as [|d r]; [reflexivity|]; cbn [next_is] in Hr; simpl; rewrite Hr; reflexivity.
  - apply andb_prop in Hl; destruct Hl as [Hc Hl]; rewrite Hc, IH; auto.
Qed.

Lemma line_term_ws t : is_line_term t = true -> is_ws t = true.
Proof.
  unfold is_line_term, mem; cbn [existsb]; intros H.
  repeat (apply orb_prop in H; destruct H as [H|H]); try discriminate;
    apply Z.eqb_eq in H; subst; reflexivity.
Qed.

Lemma lex_from_ws t r :
  is_ws t = true -> exists n ts, lex_from init_state (t :: r) = mkToken WHITESPACE n :: ts.
Proof.
  intros H.
  assert (E : next_token init_state t r
              = (WHITESPACE, S (take_while is_ws r), init_state))
    by (unfold next_token, code_token; cbn [ctx prev]; rewrite H; reflexivity).
  rewrite (lex_from_step _ _ _ _ _ _ E); eauto.
Qed.

Lemma strip_shebang_split line rest :
  forallb (fun c => negb (is_line_term c)) line = true ->
  match rest with [] => True | t :: _ => is_line_term t = true end ->
  strip_shebang (from_str ([c_hash; c_bang] ++ line ++ rest))
  = mkLexer ([c_hash; c_bang] ++ line ++ rest) (2 + length line).
Proof.
  intros Hl Hr; unfold strip_shebang, from_str; cbn [src app].
  rewrite take_while_app; [reflexivity|exact Hl|].
  destruct rest as [|t r]; [reflexivity|]; cbn [next_is]; rewrite Hr; reflexivity.
Qed.

(** *** Division or regular expression *)

Definition plain_re_char (c : Z) : bool :=
  negb ((c =? c_slash) || (c =? c_backslash) || (c =? c_lbrack)).

Lemma scan_regex_plain body flags rest :
  forallb plain_re_char body = true ->
  forallb is_ascii_alpha flags = true -> next_is is_ascii_alpha rest = false ->
  scan_regex RNorm (body ++ c_slash :: flags ++ rest) = (true, (length body + S (length flags))%nat).
Proof.
  intros Hb Hf Hr; induction body as [|c body IH]; cbn [app length forallb] in *.
  - cbn [scan_regex]; rewrite Z.eqb_refl, take_while_app by assumption; reflexivity.
  - apply andb_prop in Hb; destruct Hb as [Hc Hb].
    unfold plain_re_char in Hc; apply negb_true_iff in Hc.
    apply orb_false_elim in Hc; destruct Hc as [Hc H3]; apply orb_false_elim in Hc;
      destruct Hc as [H1 H2].
    cbn [scan_regex]; rewrite H1, H2, H3, IH by exact Hb; reflexivity.
Qed.

Lemma next_token_slash st d r :
  in_code st = true -> d <> c_slash -> d <> c_star ->
  let t := if expr_end (prev st)
           then (if d =? c_eq then (SLASHEQ, 2%nat) else (SLASH, 1%nat))
           else regex_token (d :: r) in
  next_token st c_slash (d :: r)
  = (fst t, snd t, mkState (Some (fst t)) (ctx st)).
Proof.
  intros Hc H1 H2 t; rewrite next_token_code by exact Hc; unfold code_token.
  change (is_ws c_slash) with false; rewrite Z.eqb_refl; cbv iota beta.
  unfold scan_slash; rewrite (proj2 (Z.eqb_neq d c_slash) H1),
    (proj2 (Z.eqb_neq d c_star) H2).
  unfold t; destruct (expr_end (prev st)); [destruct (d =? c_eq); reflexivity|].
  unfold regex_token; destruct (scan_regex RNorm (d :: r)) as [[|] n]; reflexivity.
Qed.

(** ** The rule [no-irregular-whitespace] (rslint_core) *)

Module NoIrregularWhitespace.

(** [&s[i..]] through [str::get]: the code points from byte offset [i]
    on, when [i] is a character boundary within the string, else [None]. *)
Fixpoint str_get_from (s : list Z) (i : nat) : option (list Z) :=
  match s with
  | [] => if Nat.eqb i 0 then Some [] else None
  | c :: r =>
    if Nat.eqb i 0 then Some s
    else if Nat.ltb i (len_utf8 c) then None
    else str_get_from r (i - len_utf8 c)
  end.

Definition FIRST_BYTES : list Z := [11; 12; 160; 133; 194; 225; 239; 226; 227].

Definition short_circuit_pass (bytes : list Z) : bool :=
  existsb (fun b => mem b FIRST_BYTES) bytes.

Fixpoint spanned_from (i : nat) (bytes : list Z) : list nat :=
  match bytes with
  | [] => []
  | b :: r => if mem b FIRST_BYTES then i :: spanned_from (S i) r else spanned_from (S i) r
  end.

(** The offsets of the bytes found in [FIRST_BYTES]. *)
Definition spanned_byte_matches (bytes : list Z) : list nat := spanned_from 0 bytes.

(** [WHITESPACE_TABLE.iter().find(..)]: the entry of the character, the
    entry being represented by its code point. *)
Definition table_find (c : Z) : option Z := find (Z.eqb c) irregular_ws.

(** Outcome of [check_root]: the [(offset, character)] pairs handed to
    [maybe_throw_err], in order, or the panic of [expect]. *)
Inductive outcome := Reported (errs : list (nat * Z)) | Panicked.

(** The [for] loop of [check_root]; a [None] of the table lookup returns
    from [check_root] at once through [?], keeping the reports made so
    far. *)
Fixpoint check_loop (s : list Z) (ms : list nat) (acc : list (nat * Z)) : outcome :=
  match ms with
  | [] => Reported acc
  | m :: ms' =>
    match str_get_from s m with
    | Some chars =>
      match chars with
      | [] => Panicked
      | offending :: _ =>
        match table_find offending with
        | Some _ => check_loop s ms' (acc ++ [(m, offending)])
        | None => Reported acc
        end
      end
    | None => check_loop s ms' acc
    end
  end.

Definition check_root (s : list Z) : outcome :=
  let bytes := as_bytes s in
  match bytes with
  | [] => Reported []
  | _ =>
    if negb (short_circuit_pass bytes) then Reported []
    else check_loop s (spanned_byte_matches bytes) []
  end.

(** The reference of the claim: every character of the text found in
    [WHITESPACE_TABLE], with its byte offset. *)
Fixpoint direct_from (off : nat) (s : list Z) : list (nat * Z) :=
  match s with
  | [] => []
  | c :: r => (if mem c irregular_ws then [(off, c)] else []) ++ direct_from (off + len_utf8 c) r
  end.

Definition direct_scan (s : list Z) : list (nat * Z) := direct_from 0 s.

End NoIrregularWhitespace.

(** *** How [check_root] walks the text *)

Module IrregularScan.
Import NoIrregularWhitespace.
Local Open Scope nat_scope.

(** The first UTF-8 byte of a character. *)
Definition first_byte (c : Z) : Z := hd 0%Z (utf8_encode c).

Definition in_table (c : Z) : bool := mem c irregular_ws.

(** The characters of the text whose first byte is in [FIRST_BYTES],
    with their byte offsets: the candidates of [spanned_byte_matches]
    that lie on a character boundary. *)
Fixpoint cands (off : nat) (s : list Z) : list (nat * Z) :=
  match s with
  | [] => []
  | c :: r =>
    (if mem (first_byte c) FIRST_BYTES then [(off, c)] else []) ++ cands (off + len_utf8 c) r
  end.

(** The candidates up to the first one missing from the table. *)
Fixpoint prefix_in_table (l : list (nat * Z)) : list (nat * Z) :=
  match l with
  | [] => []
  | (o, c) :: t => if in_table c then (o, c) :: prefix_in_table t else []
  end.

Lemma find_existsb (f : Z -> bool) l :
  match find f l with Some _ => true | None => false end = existsb f l.
Proof. induction l as [|x l IH]; simpl; [reflexivity|]; destruct (f x); auto. Qed.

Lemma spanned_from_app i a b :
  spanned_from i (a ++ b) = spanned_from i a ++ spanned_from (i + length a) b.
Proof.
  revert i; induction a as [|x a IH]; intros i; cbn [app spanned_from length].
  - rewrite Nat.add_0_r; reflexivity.
  - rewrite IH, <- plus_n_Sm; destruct (mem x FIRST_BYTES); reflexivity.
Qed.

Lemma spanned_from_spec i bytes m :
  In m (spanned_from i bytes)
  <-> i <= m < i + length bytes /\ mem (nth (m - i) bytes 0%Z) FIRST_BYTES = true.
Proof.
  revert i; induction bytes as [|b r IH]; intros i; cbn [spanned_from length In].
  - split; [tauto|lia].
  - destruct (mem b FIRST_BYTES) eqn:Hb.
    + cbn [In]; rewrite IH; split.
      * intros [<-|[H1 H2]]; [rewrite Nat.sub_diag; split; [lia|exact Hb]|].
        split; [lia|]. replace (m - i) with (S (m - S i)) by lia; exact H2.
      * intros [H1 H2]. destruct (Nat.eq_dec i m) as [->|Hne]; [left; reflexivity|right].
        split; [lia|]. replace (m - i) with (S (m - S i)) in H2 by lia; exact H2.
    + rewrite IH; split.
      * intros [H1 H2]; split; [lia|]. replace (m - i) with (S (m - S i)) by lia; exact H2.
      * intros [H1 H2]. destruct (Nat.eq_dec i m) as [<-|Hne].
        -- rewrite Nat.sub_diag in H2; cbn [nth] in H2; congruence.
        -- split; [lia|]. replace (m - i) with (S (m - S i)) in H2 by lia; exact H2.
Qed.

Lemma spanned_from_sorted i bytes : StronglySorted Nat.lt (spanned_from i bytes).
Proof.
  revert i; induction bytes as [|b r IH]; intros i; cbn [spanned_from]; [constructor|].
  destruct (mem b FIRST_BYTES); [|apply IH].
  constructor; [apply IH|].
  apply Forall_forall; intros m Hm; apply spanned_from_spec in Hm; lia.
Qed.

Lemma short_circuit_spanned bytes i :
  short_circuit_pass bytes = true <-> spanned_from i bytes <> [].
Proof.
  unfold short_circuit_pass; revert i; induction bytes as [|b r IH]; intros i;
    cbn [existsb spanned_from].
  - split; [discriminate|congruence].
  - destruct (mem b FIRST_BYTES); cbn [orb]; [split; [discriminate|congruence]|apply IH].
Qed.

Lemma check_root_loop s :
  check_root s = check_loop s (spanned_byte_matches (as_bytes s)) [].
Proof.
  unfold check_root, spanned_byte_matches.
  destruct (as_bytes s) as [|b r] eqn:E; [reflexivity|].
  destruct (short_circuit_pass (b :: r)) eqn:Hs; [reflexivity|].
  destruct (spanned_from 0 (b :: r)) eqn:Hm; [reflexivity|].
  exfalso; assert (Hne : spanned_from 0 (b :: r) <> []) by (rewrite Hm; discriminate).
  apply (proj2 (short_circuit_spanned (b :: r) 0)) in Hne; congruence.
Qed.

Lemma str_get_from_zero s : str_get_from s 0 = Some s.
Proof. destruct s; reflexivity. Qed.

Lemma str_get_from_app p q i : str_get_from (p ++ q) (byte_len p + i) = str_get_from q i.
Proof.
  induction p as [|c p IH]; [reflexivity|].
  cbn [app byte_len str_get_from]; pose proof (len_utf8_pos c).
  replace (Nat.eqb (len_utf8 c + byte_len p + i) 0) with false
    by (symmetry; apply Nat.eqb_neq; lia).
  replace (Nat.ltb (len_utf8 c + byte_len p + i) (len_utf8 c)) with false
    by (symmetry; apply Nat.ltb_ge; lia).
  replace (len_utf8 c + byte_len p + i - len_utf8 c) with (byte_len p + i) by lia.
  exact IH.
Qed.

Lemma str_get_from_inside c q i : 0 < i < len_utf8 c -> str_get_from (c :: q) i = None.
Proof.
  intros H; cbn [str_get_from].
  replace (Nat.eqb i 0) with false by (symmetry; apply Nat.eqb_neq; lia).
  replace (Nat.ltb i (len_utf8 c)) with true by (symmetry; apply Nat.ltb_lt; lia).
  reflexivity.
Qed.

Lemma check_loop_skip s l l2 acc :
  (forall m, In m l -> str_get_from s m = None) ->
  check_loop s (l ++ l2) acc = check_loop s l2 acc.
Proof.
  induction l as [|m l IH]; intros H; [reflexivity|].
  cbn [app check_loop]; rewrite (H m (or_introl eq_refl)).
  apply IH; intros; apply H; right; assumption.
Qed.

Lemma utf8_encode_split c :
  exists b t, utf8_encode c = b :: t /\ first_byte c = b /\ S (length t) = len_utf8 c.
Proof.
  pose proof (length_utf8_encode c) as L; pose proof (len_utf8_pos c).
  unfold first_byte; destruct (utf8_encode c) as [|b t]; simpl in L; [lia|].
  exists b, t; auto.
Qed.

Lemma check_loop_cands p q acc :
  check_loop (p ++ q) (spanned_from (byte_len p) (as_bytes q)) acc
  = (fix go acc l := match l with
                     | [] => Reported acc
                     | (o, c) :: t =>
                       if in_table c then go (acc ++ [(o, c)]) t else Reported acc
                     end) acc (cands (byte_len p) q).
Proof.
  revert p acc; induction q as [|c q IH]; intros p acc; [reflexivity|].
  destruct (utf8_encode_split c) as (b & t & Ee & Eb & Lt).
  change (as_bytes (c :: q)) with (utf8_encode c ++ as_bytes q).
  rewrite Ee, <- app_comm_cons.
  cbn [cands]; rewrite Eb.
  assert (Hin : forall m, In m (spanned_from (S (byte_len p)) t) ->
                          str_get_from (p ++ c :: q) m = None).
  { intros m Hm; apply spanned_from_spec in Hm.
    replace m with (byte_len p + (m - byte_len p)) by lia.
    rewrite str_get_from_app; apply str_get_from_inside; lia. }
  assert (Hnext : S (byte_len p) + length t = byte_len (p ++ [c])).
  { rewrite byte_len_app; cbn [byte_len]; lia. }
  assert (Hs : p ++ c :: q = (p ++ [c]) ++ q) by (rewrite <- app_assoc; reflexivity).
  cbn [spanned_from]; rewrite spanned_from_app, Hnext.
  replace (byte_len p + len_utf8 c) with (byte_len (p ++ [c]))
    by (rewrite byte_len_app; cbn [byte_len]; lia).
  destruct (mem b FIRST_BYTES).
  - cbn [app check_loop].
    replace (str_get_from (p ++ c :: q) (byte_len p)) with (Some (c :: q))
      by (rewrite <- (Nat.add_0_r (byte_len p)), str_get_from_app; reflexivity).
    unfold table_find; pose proof (find_existsb (Z.eqb c) irregular_ws) as F.
    unfold in_table, mem.
    destruct (find (Z.eqb c) irregular_ws); rewrite <- F; [|reflexivity].
    rewrite check_loop_skip by exact Hin; rewrite Hs; apply IH.
  - cbn [app]; rewrite check_loop_skip by exact Hin; rewrite Hs; apply IH.
Qed.

Lemma report_loop_prefix acc l :
  (fix go acc l := match l with
                   | [] => Reported acc
                   | (o, c) :: t => if in_table c then go (acc ++ [(o, c)]) t else Reported acc
                   end) acc l
  = Reported (acc ++ prefix_in_table l).
Proof.
  revert acc; induction l as [|[o c] l IH]; intros acc; simpl.
  - rewrite app_nil_r; reflexivity.
  - destruct (in_table c); [rewrite IH, <- app_assoc; reflexivity|rewrite app_nil_r; reflexivity].
Qed.

Lemma check_root_cands s : check_root s = Reported (prefix_in_table (cands 0 s)).
Proof.
  rewrite check_root_loop; unfold spanned_byte_matches.
  exact (eq_trans (check_loop_cands [] s []) (report_loop_prefix [] (cands 0 s))).
Qed.

Lemma table_first_bytes c : in_table c = true -> mem (first_byte c) FIRST_BYTES = true.
Proof.
  unfold in_table, mem; intros H; apply existsb_exists in H.
  destruct H as [x [Hx E]]; apply Z.eqb_eq in E; subst x.
  unfold irregular_ws in Hx; simpl in Hx.
  repeat (destruct Hx as [<-|Hx]; [vm_compute; reflexivity|]); contradiction.
Qed.

Lemma direct_from_cands off s :
  direct_from off s = filter (fun x => in_table (snd x)) (cands off s).
Proof.
  revert off; induction s as [|c s IH]; intros off; [reflexivity|].
  cbn [direct_from cands]; rewrite filter_app, IH; f_equal.
  fold (in_table c); destruct (in_table c) eqn:Ht.
  - rewrite table_first_bytes by exact Ht; simpl; rewrite Ht; reflexivity.
  - destruct (mem (first_byte c) FIRST_BYTES); simpl; [rewrite Ht|]; reflexivity.
Qed.

Lemma prefix_filter l :
  exists rest, filter (fun x => in_table (snd x)) l = prefix_in_table l ++ rest.
Proof.
  induction l as [|[o c] l [rest IH]]; [exists []; reflexivity|].
  simpl; destruct (in_table c).
  - exists rest; rewrite IH; reflexivity.
  - exists (filter (fun x => in_table (snd x)) l); reflexivity.
Qed.

Lemma prefix_all_in_table l :
  Forall (fun x => in_table (snd x) = true) l -> prefix_in_table l = l.
Proof.
  induction 1 as [|[o c] l Hx _ IH]; [reflexivity|]; simpl in *; rewrite Hx, IH; reflexivity.
Qed.

Lemma filter_all_true (f : nat * Z -> bool) l :
  Forall (fun x => f x = true) l -> filter f l = l.
Proof. induction 1 as [|x l Hx _ IH]; simpl; [reflexivity|]; rewrite Hx, IH; reflexivity. Qed.

Lemma cands_app off p q : cands off (p ++ q) = cands off p ++ cands (off + byte_len p) q.
Proof.
  revert off; induction p as [|c p IH]; intros off; simpl.
  - rewrite Nat.add_0_r; reflexivity.
  - rewrite IH, <- app_assoc, Nat.add_assoc; reflexivity.
Qed.

Lemma prefix_stop l1 o c l2 :
  in_table c = false -> prefix_in_table (l1 ++ (o, c) :: l2) = prefix_in_table l1.
Proof.
  intros Hc; induction l1 as [|[o' c'] l1 IH]; simpl; [rewrite Hc; reflexivity|].
  destruct (in_table c'); [rewrite IH|]; reflexivity.
Qed.

Lemma cands_in off s o c :
  In (o, c) (cands off s) ->
  exists p q, s = p ++ c :: q /\ o = off + byte_len p
         /\ mem (first_byte c) FIRST_BYTES = true.
Proof.
  revert off; induction s as [|d s IH]; intros off H; [contradiction|].
  cbn [cands] in H; apply in_app_or in H; destruct H as [H|H].
  - destruct (mem (first_byte d) FIRST_BYTES) eqn:Hd; [|contradiction].
    destruct H as [E|[]]; injection E as <- <-.
    exists [], s; simpl; repeat split; [lia|exact Hd].
  - destruct (IH _ H) as (p & q & -> & -> & Hm).
    exists (d :: p), q; simpl; repeat split; [lia|exact Hm].
Qed.

Lemma in_prefix_in_table l x : In x (prefix_in_table l) -> In x l /\ in_table (snd x) = true.
Proof.
  induction l as [|[o c] l IH]; simpl; [tauto|].
  destruct (in_table c) eqn:Hc; simpl; [|tauto].
  intros [<-|H]; [auto|]; destruct (IH H); auto.
Qed.

Lemma cands_spanned off s o c :
  In (o, c) (cands off s) -> In o (spanned_from off (as_bytes s)).
Proof.
  revert off; induction s as [|d s IH]; intros off H; [contradiction|].
  destruct (utf8_encode_split d) as (b & t & Ee & Eb & Lt).
  change (as_bytes (d :: s)) with (utf8_encode d ++ as_bytes s).
  rewrite Ee, <- app_comm_cons; cbn [spanned_from]; rewrite spanned_from_app.
  cbn [cands] in H; rewrite Eb in H; apply in_app_or in H; destruct H as [H|H].
  - destruct (mem b FIRST_BYTES); [|contradiction].
    destruct H as [E|[]]; injection E as <- _; left; reflexivity.
  - apply IH in H. replace (S off + length t) with (off + len_utf8 d) by lia.
    destruct (mem b FIRST_BYTES); [right|]; apply in_or_app; right; exact H.
Qed.

Lemma cands_sorted off s :
  StronglySorted (fun x y => fst x < fst y) (cands off s)
  /\ Forall (fun x => off <= fst x) (cands off s).
Proof.
  revert off; induction s as [|c s IH]; intros off; [split; constructor|].
  destruct (IH (off + len_utf8 c)) as [S1 F1]; pose proof (len_utf8_pos c).
  cbn [cands]; destruct (mem (first_byte c) FIRST_BYTES); cbn [app].
  - split.
    + constructor; [exact S1|]. eapply Forall_impl; [|exact F1]; intros [o d]; simpl; lia.
    + constructor; [simpl; lia|]. eapply Forall_impl; [|exact F1]; intros [o d]; simpl; lia.
  - split; [exact S1|]. eapply Forall_impl; [|exact F1]; intros [o d]; simpl; lia.
Qed.

Lemma prefix_sorted (R : nat * Z -> nat * Z -> Prop) l :
  StronglySorted R l -> StronglySorted R (prefix_in_table l).
Proof.
  induction 1 as [|[o c] l _ IH Hf]; simpl; [constructor|].
  destruct (in_table c); [|constructor].
  constructor; [exact IH|].
  apply Forall_forall; intros x Hx; apply in_prefix_in_table in Hx.
  rewrite Forall_forall in Hf; apply Hf, Hx.
Qed.

End IrregularScan.

Lemma quote_not_line_term q : (q = c_squote \/ q = c_dquote) -> is_line_term q = false.
Proof. intros [-> | ->]; reflexivity. Qed.

Lemma scan_str_line_end q m v body t rest :
  is_line_term q = false ->
  str_ends q (after_backslash m) body = false -> is_line_term t = true ->
  str_ends q (after_backslash m) (body ++ [t]) = true ->
  scan_str q m v (body ++ t :: rest) = (ERROR_TOKEN, length body).
Proof.
  intros Hq0 Hb Ht He.
  assert (Htq : (t =? q) = false).
  { apply Z.eqb_neq; intros ->; congruence. }
  assert (Htx : is_hex t = false).
  { destruct (is_hex t) eqn:X; [rewrite hex_not_line_term in Ht by exact X|]; auto. }
  revert m v Hb He; induction body as [|c r IH]; intros m v Hb He.
  - cbn [app] in *.
    destruct m as [| |[|k]| |n w]; cbn [str_ends after_backslash] in He;
      try discriminate; cbn [scan_str]; rewrite ?Htq, ?Ht, ?Htx; try reflexivity.
    + destruct (t =? c_lcurly) eqn:Hl; [apply Z.eqb_eq in Hl; subst; discriminate Ht|].
      rewrite ?Htq, ?Ht; reflexivity.
    + destruct (t =? c_rcurly) eqn:Hr; [apply Z.eqb_eq in Hr; subst; discriminate Ht|].
      cbn [andb]; rewrite ?Htq, ?Ht; reflexivity.
  - cbn [app] in He |- *.
    assert (Hnorm : forall v' : bool, (c =? q) = false -> is_line_term c = false ->
              str_ends q (c =? c_backslash) r = false ->
              str_ends q (c =? c_backslash) (r ++ [t]) = true ->
              (if c =? q then ((if v' then STRING else ERROR_TOKEN), 1%nat)
               else if is_line_term c then (ERROR_TOKEN, 0%nat)
               else if c =? c_backslash then incr (scan_str q SEsc v' (r ++ t :: rest))
               else incr (scan_str q SNorm v' (r ++ t :: rest)))
              = (ERROR_TOKEN, length (c :: r))).
    { intros v' Hq Hl H' H''; rewrite Hq, Hl.
      destruct (c =? c_backslash) eqn:Hbs; rewrite IH; auto. }
    destruct m as [| |[|k]| |n w]; cbn [scan_str];
      cbn [str_ends after_backslash] in Hb, He;
      try (destruct (c =? q) eqn:Hq; [discriminate|];
           destruct (is_line_term c) eqn:Hlt; [discriminate|]; cbn [orb] in Hb, He).
    + apply Hnorm; auto.
    + destruct (c =? 120); [|destruct (c =? 117)]; rewrite IH; auto.
    + apply Hnorm; auto.
    + destruct (is_hex c) eqn:Hx; [|apply (Hnorm false); auto].
      rewrite hex_not_backslash in Hb, He by exact Hx.
      rewrite IH; auto.
    + destruct (c =? c_lcurly) eqn:Hl.
      * apply Z.eqb_eq in Hl; subst c; rewrite IH; auto.
      * destruct (is_hex c) eqn:Hx; [|apply (Hnorm false); auto].
        rewrite hex_not_backslash in Hb, He by exact Hx; rewrite IH; auto.
    + destruct (is_hex c) eqn:Hx.
      * rewrite hex_not_backslash in Hb, He by exact Hx; rewrite IH; auto.
      * destruct ((c =? c_rcurly) && Nat.ltb 0 n && (w <=? 1114111)) eqn:Hr;
          [|apply (Hnorm false); auto].
        apply andb_prop in Hr; destruct Hr as [Hr _];
          apply andb_prop in Hr; destruct Hr as [Hr _].
        apply Z.eqb_eq in Hr; subst c; rewrite IH; auto.
Qed.

Lemma scan_str_not_trivia q m v cs : is_trivia (fst (scan_str q m v cs)) = false.
Proof.
  revert m v; induction cs as [|c r IH]; intros m v; [reflexivity|].
  destruct m as [| |[|k]| |n w]; cbn [scan_str]; split_ifs; cbn [fst incr];
    auto; destruct v; reflexivity.
Qed.

Lemma next_token_quote st q r :
  in_code st = true -> (q = c_squote \/ q = c_dquote) ->
  next_token st q r
  = (fst (scan_str q SNorm true r), S (snd (scan_str q SNorm true r)),
     mkState (Some (fst (scan_str q SNorm true r))) (ctx st)).
Proof.
  intros Hc Hq; rewrite next_token_code by exact Hc.
  pose proof (scan_str_not_trivia q SNorm true r) as T.
  destruct Hq as [-> | ->]; unfold code_token; cbn -[scan_str is_trivia];
    rewrite T; reflexivity.
Qed.

Lemma lex_from_unterminated_string st q cs :
  in_code st = true -> (q = c_squote \/ q = c_dquote) -> str_ends q false cs = false ->
  next_token st q cs = (ERROR_TOKEN, S (length cs), mkState (Some ERROR_TOKEN) (ctx st))
  /\ lex_from st (q :: cs) = [mkToken ERROR_TOKEN (byte_len (q :: cs)); mkToken EOF 0].
Proof.
  intros Hc Hq He.
  assert (E : next_token st q cs
              = (ERROR_TOKEN, S (length cs), mkState (Some ERROR_TOKEN) (ctx st))).
  { rewrite next_token_quote by assumption.
    rewrite (scan_str_unterminated q SNorm true cs He); reflexivity. }
  split; [exact E|].
  rewrite (lex_from_step_split _ _ _ _ _ _ (q :: cs) [] E) by (rewrite ?app_nil_r; reflexivity).
  reflexivity.
Qed.

Lemma lex_from_string_line_end st q body t rest :
  in_code st = true -> (q = c_squote \/ q = c_dquote) ->
  str_ends q false body = false -> is_line_term t = true ->
  str_ends q false (body ++ [t]) = true ->
  lex_from st (q :: body ++ t :: rest)
  = mkToken ERROR_TOKEN (byte_len (q :: body))
    :: lex_from (mkState (Some ERROR_TOKEN) (ctx st)) (t :: rest).
Proof.
  intros Hc Hq Hb Ht He.
  pose proof (scan_str_line_end q SNorm true body t rest (quote_not_line_term q Hq) Hb Ht He)
    as Hs.
  apply (lex_from_step_split st q (body ++ t :: rest) ERROR_TOKEN (S (length body))
           (mkState (Some ERROR_TOKEN) (ctx st)) (q :: body) (t :: rest)).
  - rewrite next_token_quote, Hs by assumption; reflexivity.
  - reflexivity.
  - reflexivity.
Qed.

(** ** The claims *)

(** C1 (losslessness): for every input, the yielded tokens cut the input
    into consecutive pieces of whole characters; appending the source
    slices covered by the token lengths, in order, gives back the input's
    bytes; the lengths sum to the byte length; the empty input yields only
    the end-of-file token. *)
Theorem lex_lossless :
  (forall s : list Z,
      lossless (lex s) s
      /\ reconstruct (as_bytes s) (lex s) = as_bytes s
      /\ total_len (lex s) = length (as_bytes s))
  /\ lex [] = [mkToken EOF 0].
Proof.
  split; [|reflexivity].
  intros s.
  pose proof (lex_is_lossless s) as H.
  split; [exact H|split].
  - apply lossless_reconstruct, H.
  - rewrite length_as_bytes; apply (lossless_total_len _ _ H).
Qed.

(** C2 (progress and termination): every dispatch of the driver consumes
    at least one code point (hence at least one byte) and never more than
    what is left; lexing any input yields a finite sequence, at most one
    token per code point plus the final end-of-file token, and every
    token before it has a non-empty byte span. *)
Theorem lex_progress_and_termination :
  (forall st c r,
      let n := snd (fst (next_token st c r)) in
      (1 <= n <= length (c :: r))%nat /\ (0 < byte_len (firstn n (c :: r)))%nat)
  /\ (forall s : list Z, exists body,
         lex s = body ++ [mkToken EOF 0]
         /\ Forall (fun t => 0 < len t)%nat body
         /\ (length body <= length s)%nat).
Proof.
  split.
  - intros st c r n.
    pose proof (next_token_bounds st c r) as B; fold n in B.
    split; [simpl; lia|].
    apply byte_len_pos. destruct n as [|n]; [lia|]; simpl; discriminate.
  - intros s. apply lossless_shape, lex_is_lossless.
Qed.

(** C3 (greedy, maximal punctuators): the operator matched at any point is
    a longest table entry that is a prefix of the input;
    [!%%&()*+,-.:;<=>?[]^{}|~] lexes as single-character punctuators except
    the two-character [<=], and [&&&&^^^||] as [&&], [&&], [^], [^], [^],
    [||]. *)
Theorem punctuators_greedy :
  (forall cs k n p,
      punct_match cs = Some (k, n) -> In p punctuators ->
      is_prefix (str (fst p)) cs = true -> (length (str (fst p)) <= n)%nat)
  /\ lex (str "!%%&()*+,-.:;<=>?[]^{}|~")
     = [mkToken BANG 1; mkToken PERCENT 1; mkToken PERCENT 1; mkToken AMP 1;
        mkToken L_PAREN 1; mkToken R_PAREN 1; mkToken STAR 1; mkToken PLUS 1;
        mkToken COMMA 1; mkToken MINUS 1; mkToken DOT 1; mkToken COLON 1;
        mkToken SEMICOLON 1; mkToken LTEQ 2; mkToken R_ANGLE 1;
        mkToken QUESTION 1; mkToken L_BRACK 1; mkToken R_BRACK 1;
        mkToken CARET 1; mkToken L_CURLY 1; mkToken R_CURLY 1; mkToken PIPE 1;
        mkToken TILDE 1; mkToken EOF 0]
  /\ lex (str "&&&&^^^||")
     = [mkToken AMP2 2; mkToken AMP2 2; mkToken CARET 1; mkToken CARET 1;
        mkToken CARET 1; mkToken PIPE2 2; mkToken EOF 0].
Proof.
  split; [exact punct_match_longest|].
  split; vm_compute; reflexivity.
Qed.

(** C4 (escape contamination): once one escape of a string literal is
    malformed the literal becomes an error token, with the same extent
    (up to its closing quote, or to the end of its line or of the input)
    as if it were valid; a
    missing hex digit in [\xHH] or [\uHHHH] is such a malformed escape;
    ["abcd \xZ0 \xGH"] is one error token of 16 bytes while
    ["abcd \x00 \xAB"] is one string token of 16 bytes (with either quote). *)
Theorem string_escape_contamination :
  (forall q m cs,
      fst (scan_str q m false cs) = ERROR_TOKEN
      /\ forall v, snd (scan_str q m false cs) = snd (scan_str q m v cs))
  /\ (forall q k v c rest, is_hex c = false ->
        scan_str q (SHex (S k)) v (c :: rest) = scan_str q SNorm false (c :: rest)
        /\ ((c =? c_lcurly) = false ->
            scan_str q SUStart v (c :: rest) = scan_str q SNorm false (c :: rest)))
  /\ lex (dq ++ str "abcd \xZ0 \xGH" ++ dq) = [mkToken ERROR_TOKEN 16; mkToken EOF 0]
  /\ lex (str "'abcd \xZ0 \xGH'") = [mkToken ERROR_TOKEN 16; mkToken EOF 0]
  /\ lex (dq ++ str "abcd \x00 \xAB" ++ dq) = [mkToken STRING 16; mkToken EOF 0]
  /\ lex (str "'abcd \x00 \xAB'") = [mkToken STRING 16; mkToken EOF 0].
Proof.
  split; [intros; split; [apply scan_str_invalid_kind | intros; apply scan_str_len_indep]|].
  split.
  - intros q k v c rest Hx; split; [|intros Hl]; cbn [scan_str]; rewrite Hx;
      [|rewrite Hl]; reflexivity.
  - repeat split; vm_compute; reflexivity.
Qed.

(** C5 (unterminated strings): in code (outside template chunks), a
    string literal with no closing quote before end of input and no
    unescaped line terminator is one error token over everything from the
    opening quote to the end of input, also when the input stops inside an
    escape sequence; a literal cut by an unescaped line terminator is an
    error token up to that terminator, and lexing goes on with it; the
    lengths 4, 5, 6, 7, 8, 6 and 8 of the repository's tests, and [' a b c]
    then a line feed then [def] as ERROR 4, WHITESPACE 1, IDENT 3. *)
Theorem unterminated_string_error :
  (forall st q cs, in_code st = true -> (q = c_squote \/ q = c_dquote) ->
      str_ends q false cs = false ->
      next_token st q cs = (ERROR_TOKEN, S (length cs), mkState (Some ERROR_TOKEN) (ctx st))
      /\ lex_from st (q :: cs) = [mkToken ERROR_TOKEN (byte_len (q :: cs)); mkToken EOF 0])
  /\ (forall st q body t rest, in_code st = true -> (q = c_squote \/ q = c_dquote) ->
      str_ends q false body = false -> is_line_term t = true ->
      str_ends q false (body ++ [t]) = true ->
      lex_from st (q :: body ++ t :: rest)
      = mkToken ERROR_TOKEN (byte_len (q :: body))
        :: lex_from (mkState (Some ERROR_TOKEN) (ctx st)) (t :: rest))
  /\ lex (str "'abc") = [mkToken ERROR_TOKEN 4; mkToken EOF 0]
  /\ lex (str "'abc" ++ bs) = [mkToken ERROR_TOKEN 5; mkToken EOF 0]
  /\ lex (str "'abc" ++ bs ++ str "x") = [mkToken ERROR_TOKEN 6; mkToken EOF 0]
  /\ lex (str "'abc" ++ bs ++ str "x4") = [mkToken ERROR_TOKEN 7; mkToken EOF 0]
  /\ lex (str "'abc" ++ bs ++ str "x45") = [mkToken ERROR_TOKEN 8; mkToken EOF 0]
  /\ lex (str "'abc" ++ bs ++ str "u") = [mkToken ERROR_TOKEN 6; mkToken EOF 0]
  /\ lex (str "'abc" ++ bs ++ str "u20") = [mkToken ERROR_TOKEN 8; mkToken EOF 0]
  /\ lex (str "'abc" ++ [10] ++ str "def")
     = [mkToken ERROR_TOKEN 4; mkToken WHITESPACE 1; mkToken IDENT 3; mkToken EOF 0].
Proof.
  split; [exact lex_from_unterminated_string|].
  split; [exact lex_from_string_line_end|].
  repeat split; vm_compute; reflexivity.
Qed.

(** C10 (escaped delimiter): a well-formed [\uHHHH] escape never ends a
    string literal, whatever code point it denotes, the delimiter quote
    included; the test inputs, a backslash then u0022 inside double quotes
    and a backslash then u0027 inside single quotes (abcd before, a after),
    are single string tokens of 13 bytes. *)
Theorem unicode_escape_keeps_string_open :
  (forall q v h1 h2 h3 h4 rest,
      (q = c_squote \/ q = c_dquote) ->
      is_hex h1 && is_hex h2 && is_hex h3 && is_hex h4 = true ->
      scan_str q SNorm v (c_backslash :: 117 :: h1 :: h2 :: h3 :: h4 :: rest)
      = (fst (scan_str q SNorm v rest), (6 + snd (scan_str q SNorm v rest))%nat))
  /\ lex (dq ++ str "abcd" ++ bs ++ str "u0022a" ++ dq) = [mkToken STRING 13; mkToken EOF 0]
  /\ lex (str "'abcd" ++ bs ++ str "u0027a'") = [mkToken STRING 13; mkToken EOF 0].
Proof.
  split; [exact scan_str_u4|].
  split; vm_compute; reflexivity.
Qed.

(** C6 (numbers followed by a unicode escape): after the decimal digits
    of a literal, a [\uHHHH] escape is decoded; when it denotes an
    identifier character, the digits, the escape and the identifier
    characters that follow form one error token over the whole run, and
    lexing goes on after the run; otherwise the digits are a number token,
    the escape alone an error token of 6 bytes, and lexing starts afresh
    after it.  The inputs 25 then escape 0046 then abcdef (14 bytes), and
    25 then escape FEFF then b (9 bytes), of the repository's tests. *)
Theorem number_unicode_escape :
  (forall st ds h1 h2 h3 h4 ids rest,
      in_code st = true -> ds <> [] -> forallb is_dec ds = true ->
      is_hex h1 = true -> is_hex h2 = true -> is_hex h3 = true -> is_hex h4 = true ->
      id_continue (hex4 h1 h2 h3 h4) = true ->
      forallb id_continue ids = true ->
      next_is id_continue rest = false ->
      match unicode_escape rest with Some (_, w) => id_continue w = false | None => True end ->
      lex_from st (ds ++ esc4 h1 h2 h3 h4 ++ ids ++ rest)
      = mkToken ERROR_TOKEN (byte_len (ds ++ esc4 h1 h2 h3 h4 ++ ids))
        :: lex_from (mkState (Some ERROR_TOKEN) (ctx st)) rest)
  /\ (forall st ds h1 h2 h3 h4 rest,
      in_code st = true -> ds <> [] -> forallb is_dec ds = true ->
      is_hex h1 = true -> is_hex h2 = true -> is_hex h3 = true -> is_hex h4 = true ->
      id_continue (hex4 h1 h2 h3 h4) = false ->
      lex_from st (ds ++ esc4 h1 h2 h3 h4 ++ rest)
      = mkToken NUMBER (byte_len ds) :: mkToken ERROR_TOKEN 6
        :: lex_from (mkState (Some ERROR_TOKEN) (ctx st)) rest)
  /\ lex (str "25" ++ bs ++ str "u0046abcdef") = [mkToken ERROR_TOKEN 14; mkToken EOF 0]
  /\ lex (str "25" ++ bs ++ str "uFEFFb")
     = [mkToken NUMBER 2; mkToken ERROR_TOKEN 6; mkToken IDENT 1; mkToken EOF 0]
  /\ lex (str "25" ++ bs ++ str "u00A9")
     = [mkToken NUMBER 2; mkToken ERROR_TOKEN 6; mkToken EOF 0]
  /\ lex (str "25" ++ bs ++ str "u00AA")
     = [mkToken ERROR_TOKEN 8; mkToken EOF 0].
Proof.
  split; [exact lex_number_esc4_merge|].
  split; [exact lex_number_esc4_close|].
  repeat split; vm_compute; reflexivity.
Qed.

(** C7 (shebang), as the claim reads: on [#! /bin/node \n\n] the cursor
    is left at 13, which is the offset of the first line terminator, not
    the offset 14 just past it. *)
Lemma shebang_cursor_not_past_terminator :
  cur (strip_shebang (from_str shebang_ex)) = 13%nat
  /\ past_first_terminator shebang_ex = 14%nat
  /\ Nat.eqb (cur (strip_shebang (from_str shebang_ex))) (past_first_terminator shebang_ex)
     = false.
Proof. repeat split; vm_compute; reflexivity. Qed.

(** C7 (shebang), amended: on a buffer [#!] then a line without
    terminator then [rest] (empty, or starting with a line terminator),
    the stripper leaves the cursor on the first line terminator (the byte
    length of [#!] and the line), or at the end of input; the tokens are
    then those of [rest] lexed afresh, which cover exactly its bytes, so
    the prefix is never emitted and the terminator comes first, as
    whitespace; on [#! /bin/node \n\n] the cursor is 13. *)
Theorem shebang_stops_at_terminator :
  (forall line rest,
      forallb (fun c => negb (is_line_term c)) line = true ->
      match rest with [] => True | t :: _ => is_line_term t = true end ->
      let l := strip_shebang (from_str ([c_hash; c_bang] ++ line ++ rest)) in
      cur l = byte_len ([c_hash; c_bang] ++ line)
      /\ tokens l = lex rest
      /\ lossless (tokens l) rest
      /\ total_len (tokens l) = byte_len rest
      /\ (rest <> [] -> exists n ts, tokens l = mkToken WHITESPACE n :: ts))
  /\ cur (strip_shebang (from_str shebang_ex)) = 13%nat.
Proof.
  split; [|vm_compute; reflexivity].
  intros line rest Hl Hr l.
  assert (Ht : tokens l = lex rest).
  { unfold l; rewrite strip_shebang_split by assumption.
    unfold tokens, lex, from_str; cbn [src pos].
    change (2 + length line)%nat with (length ([c_hash; c_bang] ++ line)).
    rewrite app_assoc, skipn_length_app; reflexivity. }
  pose proof (lex_is_lossless rest) as HL.
  split; [|split; [exact Ht|]].
  - unfold l; rewrite strip_shebang_split by assumption; unfold cur; cbn [src pos].
    change (2 + length line)%nat with (length ([c_hash; c_bang] ++ line)).
    rewrite app_assoc, firstn_length_app; reflexivity.
  - rewrite Ht; split; [exact HL|]; split; [exact (lossless_total_len _ _ HL)|].
    intros Hne; destruct rest as [|t r]; [congruence|].
    rewrite lex_lex_from; apply lex_from_ws, line_term_ws; exact Hr.
Qed.

(** C8 (division or regex): at a [/] that does not start a comment, the
    lexer looks at the last non-trivia token kind: after the end of an
    expression (identifier, number, string, [)], []], [this], [super],
    [true], [false], [null]) it is the division operator [/] (or [/=]),
    otherwise a regex literal, which runs to its closing slash and takes
    the alphabetic flags after it; the kind remembered is that of the last
    token not whitespace or comment; [var a = /aa/gim] has the regex
    token [/aa/gim] of 7 bytes, [var a = 5 / 6] the division token of
    1 byte. *)
Theorem slash_division_or_regex :
  (forall st d r, in_code st = true -> d <> c_slash -> d <> c_star ->
      let t := if expr_end (prev st)
               then (if d =? c_eq then (SLASHEQ, 2%nat) else (SLASH, 1%nat))
               else regex_token (d :: r) in
      next_token st c_slash (d :: r) = (fst t, snd t, mkState (Some (fst t)) (ctx st)))
  /\ (forall body flags rest,
      forallb plain_re_char body = true ->
      forallb is_ascii_alpha flags = true -> next_is is_ascii_alpha rest = false ->
      regex_token (body ++ c_slash :: flags ++ rest)
      = (REGEX, length ([c_slash] ++ body ++ [c_slash] ++ flags)))
  /\ (forall st c r k n st', next_token st c r = (k, n, st') ->
      prev st' = if is_trivia k then prev st else Some k)
  /\ lex (str "var a = /aa/gim")
     = [mkToken VAR_KW 3; mkToken WHITESPACE 1; mkToken IDENT 1; mkToken WHITESPACE 1;
        mkToken EQ 1; mkToken WHITESPACE 1; mkToken REGEX 7; mkToken EOF 0]
  /\ lex (str "var a = 5 / 6")
     = [mkToken VAR_KW 3; mkToken WHITESPACE 1; mkToken IDENT 1; mkToken WHITESPACE 1;
        mkToken EQ 1; mkToken WHITESPACE 1; mkToken NUMBER 1; mkToken WHITESPACE 1;
        mkToken SLASH 1; mkToken WHITESPACE 1; mkToken NUMBER 1; mkToken EOF 0].
Proof.
  split; [exact next_token_slash|].
  split.
  - intros body flags rest Hb Hf Hr; unfold regex_token.
    rewrite scan_regex_plain by assumption.
    rewrite !length_app; cbn [length]; f_equal; lia.
  - split; [|split; vm_compute; reflexivity].
    intros st c r k n st' E; unfold next_token in E.
    destruct (match ctx st with
              | TTemplate :: outer => chunk_token outer (ctx st) c r
              | _ => code_token (prev st) (ctx st) c r
              end) as [[k0 n0] cx].
    injection E as <- <- <-; reflexivity.
Qed.

(** C9 (irregular whitespace scan): the two-stage scan of [check_root]
    and the direct scan against [WHITESPACE_TABLE] agree on a text whose
    only candidate is a table character (the repository's no-break space
    test), but not on an em dash (U+2014, first byte E2) followed by a
    no-break space: the em dash is a candidate missing from the table, the
    [?] on the lookup returns from [check_root] there, and the no-break
    space at byte offset 3 is never reported. *)
Theorem irregular_ws_scan_stops_early :
  NoIrregularWhitespace.check_root (str "var any " ++ [160] ++ str " = 'thing';")
  = NoIrregularWhitespace.Reported
      (NoIrregularWhitespace.direct_scan (str "var any " ++ [160] ++ str " = 'thing';"))
  /\ NoIrregularWhitespace.direct_scan (str "var any " ++ [160] ++ str " = 'thing';")
     = [(8%nat, 160)]
  /\ NoIrregularWhitespace.check_root [8212; 160] = NoIrregularWhitespace.Reported []
  /\ NoIrregularWhitespace.direct_scan [8212; 160] = [(3%nat, 160)].
Proof. repeat split; vm_compute; reflexivity. Qed.

(** ** Instances of the claims' hypotheses *)

Lemma punctuators_greedy_witness :
  punct_match (str "<=") = Some (LTEQ, 2%nat) /\ (length (str "<=") <= 2)%nat.
Proof.
  split; [vm_compute; reflexivity|].
  apply (proj1 punctuators_greedy (str "<=") LTEQ 2%nat (("<=")%string, LTEQ));
    [vm_compute; reflexivity | simpl; repeat (first [left; reflexivity | right]) |
     vm_compute; reflexivity].
Defined.

Lemma string_escape_contamination_witness :
  is_hex 90 = false
  /\ scan_str c_dquote (SHex 2) true (str "Z0" ++ dq)
     = scan_str c_dquote SNorm false (str "Z0" ++ dq).
Proof.
  split; [reflexivity|].
  exact (proj1 (proj1 (proj2 string_escape_contamination)
                  c_dquote 1%nat true 90 (str "0" ++ dq) eq_refl)).
Defined.

Lemma unterminated_string_error_witness :
  in_code (mkState (Some EQ) [TInterp 0]) = true
  /\ str_ends c_squote false (str "abc" ++ bs ++ str "x4") = false
  /\ lex_from (mkState (Some EQ) [TInterp 0]) (c_squote :: str "abc" ++ bs ++ str "x4")
     = [mkToken ERROR_TOKEN (byte_len (c_squote :: str "abc" ++ bs ++ str "x4"));
        mkToken EOF 0]
  /\ str_ends c_dquote false (str "ab") = false /\ is_line_term 10 = true
  /\ str_ends c_dquote false (str "ab" ++ [10]) = true
  /\ lex_from (mkState None []) (c_dquote :: str "ab" ++ 10 :: str "c")
     = mkToken ERROR_TOKEN (byte_len (c_dquote :: str "ab"))
       :: lex_from (mkState (Some ERROR_TOKEN) []) (10 :: str "c").
Proof.
  split; [reflexivity|]. split; [vm_compute; reflexivity|].
  split.
  - apply (proj2 ((proj1 unterminated_string_error) (mkState (Some EQ) [TInterp 0])
                    c_squote (str "abc" ++ bs ++ str "x4") eq_refl
                    (or_introl eq_refl) ltac:(vm_compute; reflexivity))).
  - split; [vm_compute; reflexivity|]. split; [reflexivity|].
    split; [vm_compute; reflexivity|].
    exact ((proj1 (proj2 unterminated_string_error)) (mkState None []) c_dquote
             (str "ab") 10 (str "c") eq_refl (or_intror eq_refl)
             ltac:(vm_compute; reflexivity) eq_refl ltac:(vm_compute; reflexivity)).
Defined.

Lemma unicode_escape_keeps_string_open_witness :
  is_hex 48 && is_hex 48 && is_hex 50 && is_hex 50 = true
  /\ scan_str c_dquote SNorm true (c_backslash :: 117 :: 48 :: 48 :: 50 :: 50 :: str "a" ++ dq)
     = (fst (scan_str c_dquote SNorm true (str "a" ++ dq)),
        (6 + snd (scan_str c_dquote SNorm true (str "a" ++ dq)))%nat).
Proof.
  split; [reflexivity|].
  apply (proj1 unicode_escape_keeps_string_open); [right; reflexivity | reflexivity].
Defined.

Lemma number_unicode_escape_witness :
  in_code (mkState (Some L_PAREN) [TInterp 1]) = true
  /\ id_continue (hex4 48 48 52 54) = true
  /\ lex_from (mkState (Some L_PAREN) [TInterp 1]) (str "25" ++ esc4 48 48 52 54 ++ str "abcdef" ++ [])
     = mkToken ERROR_TOKEN (byte_len (str "25" ++ esc4 48 48 52 54 ++ str "abcdef"))
       :: lex_from (mkState (Some ERROR_TOKEN) [TInterp 1]) []
  /\ id_continue (hex4 48 48 65 57) = false
  /\ lex_from init_state (str "25" ++ esc4 48 48 65 57 ++ [])
     = mkToken NUMBER (byte_len (str "25")) :: mkToken ERROR_TOKEN 6
       :: lex_from (mkState (Some ERROR_TOKEN) []) [].
Proof.
  split; [reflexivity|]. split; [vm_compute; reflexivity|].
  split.
  - apply (proj1 number_unicode_escape (mkState (Some L_PAREN) [TInterp 1]) (str "25")
             48 48 52 54 (str "abcdef") []);
      [reflexivity | discriminate | vm_compute; reflexivity .. | vm_compute; exact I].
  - split; [vm_compute; reflexivity|].
    apply (proj1 (proj2 number_unicode_escape) init_state (str "25") 48 48 65 57 []);
      [reflexivity | discriminate | vm_compute; reflexivity ..].
Defined.

Lemma shebang_stops_at_terminator_witness :
  cur (strip_shebang (from_str ([c_hash; c_bang] ++ str " /bin/node " ++ [10; 10])))
  = byte_len ([c_hash; c_bang] ++ str " /bin/node ").
Proof.
  exact (proj1 ((proj1 shebang_stops_at_terminator) (str " /bin/node ") [10; 10]
                  eq_refl eq_refl)).
Defined.

Lemma slash_division_or_regex_witness :
  next_token (mkState (Some NUMBER) []) c_slash (str " 6")
  = (SLASH, 1%nat, mkState (Some SLASH) [])
  /\ next_token (mkState (Some L_PAREN) [TInterp 0; TTemplate]) c_slash (str "a/g")
     = (REGEX, 4%nat, mkState (Some REGEX) [TInterp 0; TTemplate]).
Proof.
  split.
  - exact ((proj1 slash_division_or_regex) (mkState (Some NUMBER) []) 32 (str "6") eq_refl
             ltac:(unfold c_slash; lia) ltac:(unfold c_star; lia)).
  - exact ((proj1 slash_division_or_regex) (mkState (Some L_PAREN) [TInterp 0; TTemplate])
             97 (str "/g") eq_refl ltac:(unfold c_slash; lia) ltac:(unfold c_star; lia)).
Defined.

(** ** Further properties of [no-irregular-whitespace] *)

(** X1: [spanned_byte_matches] lists, in strictly increasing order and
    each once, exactly the offsets of the bytes found in [FIRST_BYTES]. *)
Theorem spanned_byte_matches_exact :
  forall bytes,
    (forall m, In m (NoIrregularWhitespace.spanned_byte_matches bytes)
               <-> (m < length bytes)%nat
                   /\ mem (nth m bytes 0) NoIrregularWhitespace.FIRST_BYTES = true)
    /\ StronglySorted Nat.lt (NoIrregularWhitespace.spanned_byte_matches bytes).
Proof.
  intros bytes; split; [|apply IrregularScan.spanned_from_sorted].
  intros m; unfold NoIrregularWhitespace.spanned_byte_matches.
  rewrite IrregularScan.spanned_from_spec, Nat.sub_0_r.
  split; intros [H1 H2]; split; auto; lia.
Qed.

(** X2: the two early returns of [check_root] (empty text, no byte of
    [FIRST_BYTES]) are shortcuts only: [short_circuit_pass] holds exactly
    when [spanned_byte_matches] finds a byte, and [check_root] always
    gives what its loop gives on the matches. *)
Theorem check_root_shortcuts_sound :
  (forall bytes, NoIrregularWhitespace.short_circuit_pass bytes = true
                 <-> NoIrregularWhitespace.spanned_byte_matches bytes <> [])
  /\ (forall s, NoIrregularWhitespace.check_root s
                = NoIrregularWhitespace.check_loop s
                    (NoIrregularWhitespace.spanned_byte_matches (as_bytes s)) []).
Proof.
  split; [intros; apply IrregularScan.short_circuit_spanned|apply IrregularScan.check_root_loop].
Qed.

(** X3: the [expect] in [check_root] never fires: every candidate offset
    that is a character boundary has a character after it. *)
Theorem check_root_never_panics :
  forall s, exists r, NoIrregularWhitespace.check_root s = NoIrregularWhitespace.Reported r.
Proof. intros s; rewrite IrregularScan.check_root_cands; eauto. Qed.

(** X4: every report of [check_root] is a [WHITESPACE_TABLE] character
    that starts at the reported byte offset of the text, so the error
    range [offset, offset + len_utf8) lies within the text. *)
Theorem check_root_reports_sound :
  forall s r o c,
    NoIrregularWhitespace.check_root s = NoIrregularWhitespace.Reported r ->
    In (o, c) r ->
    mem c irregular_ws = true
    /\ exists p q, s = p ++ c :: q /\ o = byte_len p
                   /\ (o + len_utf8 c <= byte_len s)%nat.
Proof.
  intros s r o c E Hin.
  rewrite IrregularScan.check_root_cands in E; injection E as <-.
  apply IrregularScan.in_prefix_in_table in Hin; destruct Hin as [Hin Ht].
  destruct (IrregularScan.cands_in 0 s o c Hin) as (p & q & -> & -> & _).
  split; [exact Ht|]; exists p, q; repeat split.
  rewrite byte_len_app; cbn [byte_len]; lia.
Qed.

(** X5: the reports of [check_root] come in text order, each offset
    once, and form an initial segment of the direct scan of the text
    against [WHITESPACE_TABLE]. *)
Theorem check_root_initial_segment :
  forall s, exists r rest,
    NoIrregularWhitespace.check_root s = NoIrregularWhitespace.Reported r
    /\ NoIrregularWhitespace.direct_scan s = r ++ rest
    /\ StronglySorted (fun x y => (fst x < fst y)%nat) r.
Proof.
  intros s; rewrite IrregularScan.check_root_cands.
  destruct (IrregularScan.prefix_filter (IrregularScan.cands 0 s)) as [rest E].
  exists (IrregularScan.prefix_in_table (IrregularScan.cands 0 s)), rest.
  split; [reflexivity|]; split.
  - unfold NoIrregularWhitespace.direct_scan; rewrite IrregularScan.direct_from_cands; exact E.
  - apply IrregularScan.prefix_sorted, (IrregularScan.cands_sorted 0 s).
Qed.

(** X6: when every character of the text whose first UTF-8 byte is in
    [FIRST_BYTES] is a [WHITESPACE_TABLE] character, [check_root] reports
    exactly the occurrences of the direct scan. *)
Theorem check_root_exact_without_foreign :
  forall s,
    Forall (fun c => mem (IrregularScan.first_byte c) NoIrregularWhitespace.FIRST_BYTES = true
                     -> mem c irregular_ws = true) s ->
    NoIrregularWhitespace.check_root s
    = NoIrregularWhitespace.Reported (NoIrregularWhitespace.direct_scan s).
Proof.
  intros s H; rewrite IrregularScan.check_root_cands.
  unfold NoIrregularWhitespace.direct_scan; rewrite IrregularScan.direct_from_cands.
  assert (Hc : Forall (fun x => IrregularScan.in_table (snd x) = true) (IrregularScan.cands 0 s)).
  { apply Forall_forall; intros [o c] Hin.
    destruct (IrregularScan.cands_in _ _ _ _ Hin) as (p & q & -> & _ & Hm).
    rewrite Forall_forall in H; apply H; [apply in_or_app; right; left; reflexivity|exact Hm]. }
  rewrite IrregularScan.prefix_all_in_table, IrregularScan.filter_all_true by exact Hc.
  reflexivity.
Qed.

(** X7: nothing after the first character whose first UTF-8 byte is in
    [FIRST_BYTES] but which is not in [WHITESPACE_TABLE] is examined:
    [check_root] on [p ++ c :: q] gives what it gives on [p]. *)
Theorem check_root_ignores_after_foreign :
  forall p c q,
    mem (IrregularScan.first_byte c) NoIrregularWhitespace.FIRST_BYTES = true ->
    mem c irregular_ws = false ->
    NoIrregularWhitespace.check_root (p ++ c :: q) = NoIrregularWhitespace.check_root p.
Proof.
  intros p c q Hm Ht; rewrite !IrregularScan.check_root_cands, IrregularScan.cands_app.
  cbn [IrregularScan.cands]; rewrite Hm; cbn [app].
  rewrite IrregularScan.prefix_stop by exact Ht; reflexivity.
Qed.

(** X8: the first stage misses nothing: the byte offset of every
    [WHITESPACE_TABLE] character of the text is among the candidates of
    [spanned_byte_matches]. *)
Theorem first_stage_complete :
  forall s o c,
    In (o, c) (NoIrregularWhitespace.direct_scan s) ->
    In o (NoIrregularWhitespace.spanned_byte_matches (as_bytes s)).
Proof.
  intros s o c H; unfold NoIrregularWhitespace.direct_scan in H.
  rewrite IrregularScan.direct_from_cands in H; apply filter_In in H; destruct H as [H _].
  exact (IrregularScan.cands_spanned 0 s o c H).
Qed.

Lemma check_root_reports_sound_witness :
  mem 160 irregular_ws = true
  /\ exists p q, str "var any " ++ [160] ++ str " = 'thing';" = p ++ 160 :: q
                 /\ 8%nat = byte_len p
                 /\ (8 + len_utf8 160 <= byte_len (str "var any " ++ [160%Z] ++ str " = 'thing';"))%nat.
Proof.
  apply (check_root_reports_sound (str "var any " ++ [160] ++ str " = 'thing';") [(8%nat, 160)]);
    vm_compute; auto.
Defined.

Lemma check_root_exact_without_foreign_witness :
  NoIrregularWhitespace.check_root (str "var any " ++ [160] ++ str " = 'thing';")
  = NoIrregularWhitespace.Reported
      (NoIrregularWhitespace.direct_scan (str "var any " ++ [160] ++ str " = 'thing';")).
Proof.
  apply check_root_exact_without_foreign.
  apply Forall_forall; intros c Hc; simpl in Hc.
  repeat (destruct Hc as [<-|Hc]; [vm_compute; auto|]); contradiction.
Defined.

Lemma check_root_ignores_after_foreign_witness :
  NoIrregularWhitespace.check_root ([] ++ 8212 :: [160]) = NoIrregularWhitespace.check_root [].
Proof. apply check_root_ignores_after_foreign; vm_compute; reflexivity. Defined.

Lemma first_stage_complete_witness :
  In 3%nat (NoIrregularWhitespace.spanned_byte_matches (as_bytes [8212; 160])).
Proof. apply (first_stage_complete [8212; 160] 3 160); vm_compute; auto. Defined.
